(** * The per-host connection pool of the driver ([src/pool.hpp])

    [cass::Pool] owns the sockets to one host.  It runs on a single event-loop
    thread, so every member function is a transformer of the pool's data
    members and of the objects the pool points to.  The embedding below keeps
    that shape: a [State] holds the data members of [Pool], the
    [ClientConnection] objects reachable through the pool's pointers, the
    [timer] member of the request handlers, and the sequence of calls the pool
    has made on its collaborators and on its owner (the [trace]). *)

From stdpp Require Import base list gmap strings.
From Stdlib Require Import ZArith Lia.

Local Open Scope Z_scope.
Local Open Scope nat_scope.

(** ** Pointers, messages and the calls that leave the pool *)

(** [ClientConnection*] and [RequestHandler*]: addresses of live objects. *)
Abbreviation ConnPtr := nat (only parsing).
Abbreviation ReqPtr := nat (only parsing).

(** The options of [Config] that [pool.hpp] reads.  They are counts compared
    with the sizes of [std::list]s; a list never holds [SIZE_MAX] elements, so
    the sums [size() + 1] and [size() + size()] of the source do not wrap and
    are taken in [nat]. *)
Record Config := {
  core_connections_per_host : nat;
  max_connections_per_host : nat;
  max_simultaneous_creation : nat;
  max_pending_requests : nat;
  connect_timeout : nat
}.

(** The only [RetryType] the pool ever passes to [retry_callback_]. *)
Inductive RetryType := RETRY_WITH_NEXT_HOST.

(** A response as [PoolHandler::on_set] reads it: [response->opcode] and the
    [code] found through [static_cast<BodyError*>(response->body.get())]
    (only read when the opcode is [CQL_OPCODE_ERROR]). *)
Record Message := { opcode : Z; error_code : Z }.

(** The [ResponseCallback] objects the pool hands to
    [ClientConnection::execute].  [PrepareHandler] receives what
    [request_handler_.release()] returns, which is null when the
    [unique_ptr] is empty. *)
Inductive ResponseCallback :=
  | new_PoolHandler (connection : ConnPtr) (request_handler : ReqPtr)
  | new_PrepareHandler (request_handler : option ReqPtr).

(** Every call that leaves the pool, in program order. *)
Inductive Event :=
  | EvConnectCallback                                  (* connect_callback_(host_) *)
  | EvCloseCallback                                    (* close_callback_(host_) *)
  | EvRetryCallback (r : option ReqPtr) (t : RetryType) (* retry_callback_(r, t) *)
  | EvConnectionConnect (c : ConnPtr)                  (* c->connect() *)
  | EvConnectionClose (c : ConnPtr)                    (* c->close() *)
  | EvConnectionDefunct (c : ConnPtr)                  (* c->defunct() *)
  | EvConnectionExecute (c : ConnPtr) (cb : ResponseCallback) (* c->execute(cb) *)
  | EvTimerStart (r : ReqPtr) (timeout : nat)          (* Timer::start(loop_, timeout, r, ..) *)
  | EvTimerStop (r : ReqPtr)                           (* Timer::stop(r->timer) *)
  | EvHandlerOnSet (r : ReqPtr) (response : Message)   (* r->on_set(response) *)
  | EvHandlerOnError (r : ReqPtr) (code : Z) (message : string) (* r->on_error(code, message) *)
  | EvHandlerOnTimeout (r : ReqPtr).                   (* r->on_timeout() *)

#[global] Instance RetryType_eq_dec : EqDecision RetryType.
Proof. solve_decision. Defined.
#[global] Instance Message_eq_dec : EqDecision Message.
Proof. solve_decision. Defined.
#[global] Instance ResponseCallback_eq_dec : EqDecision ResponseCallback.
Proof. solve_decision. Defined.
#[global] Instance Event_eq_dec : EqDecision Event.
Proof. solve_decision. Defined.

(** The caller's own handler is entered by exactly these three calls. *)
Definition is_caller_callback (e : Event) : bool :=
  match e with
  | EvHandlerOnSet _ _ | EvHandlerOnError _ _ _ | EvHandlerOnTimeout _ => true
  | _ => false
  end.

(** How often [close_callback_] was invoked in a trace. *)
Definition close_notifications (t : list Event) : nat :=
  length (filter (λ e, e = EvCloseCallback) t).

(** ** Collaborators that are declared outside [pool.hpp] *)

(** The protocol constants the [switch] statements of [PoolHandler] name.
    Their values live in headers outside [pool.hpp]; the pool is verified for
    any values. *)
Class Protocol := {
  CQL_OPCODE_RESULT : Z;
  CQL_OPCODE_ERROR : Z;
  CQL_ERROR_UNPREPARED : Z;
  CASS_ERROR_LIB_WRITE_ERROR : Z
}.

(** The member functions of [ClientConnection] that the pool calls, as
    functions on the state [C] of one connection object.  [cc_execute] returns
    the [bool] of [ClientConnection::execute]: whether the transport accepted
    the request. *)
Class ClientConnection (C : Type) := {
  cc_new : C;
  cc_connect : C → C;
  cc_close : C → C;
  cc_defunct : C → C;
  cc_execute : C → ResponseCallback → C * bool;
  is_ready : C → bool;
  is_closing : C → bool;
  is_defunct : C → bool;
  available_streams : C → nat
}.

(** ** Undefined behaviour *)

(** The two ways in which the member functions of [pool.hpp] can leave defined
    behaviour: dereferencing the past-the-end iterator of a list, and calling
    through an empty [unique_ptr]. *)
Inductive Fault := DerefEnd | DerefNull.

Inductive outcome (A : Type) :=
  | Done (a : A)
  | Undefined (f : Fault).
Arguments Done {A} a.
Arguments Undefined {A} f.

#[global] Instance outcome_ret : MRet outcome := λ A, Done.
#[global] Instance outcome_bind : MBind outcome := λ A B f m,
  match m with Done a => f a | Undefined u => Undefined u end.
#[global] Instance outcome_fmap : FMap outcome := λ A B f m,
  match m with Done a => Done (f a) | Undefined u => Undefined u end.

(** ** [std::max_element] and [std::list] helpers *)

(** Iterators into a list are positions; [end()] is the length of the list. *)
Fixpoint max_element_scan {A} (comp : A → A → bool)
    (largest : nat) (x : A) (first : nat) (rest : list A) : nat :=
  match rest with
  | [] => largest
  | y :: rest' =>
      if comp x y then max_element_scan comp first y (S first) rest'
      else max_element_scan comp largest x (S first) rest'
  end.

(** [std::max_element(l.begin(), l.end(), comp)]: on an empty range it returns
    [last], otherwise the first of the largest elements. *)
Definition max_element {A} (comp : A → A → bool) (l : list A) : nat :=
  match l with
  | [] => 0
  | x :: rest => max_element_scan comp 0 x 1 rest
  end.

(** [l.remove(x)] erases every element equal to [x]. *)
Definition list_remove (x : nat) (l : list nat) : list nat :=
  filter (λ y, y ≠ x) l.

(** [l.empty()] *)
Definition list_empty {A} (l : list A) : bool :=
  match l with [] => true | _ => false end.

(** ** The pool *)

Section pool.
Context `{!Protocol} {C : Type} `{!ClientConnection C}.

(** The data members of [Pool] that change ([connections_],
    [connections_pending_], [pending_request_queue_], [is_closing_]),
    followed by the objects around it: [objects] maps the address of every
    [ClientConnection] to its state, [timer] holds the [timer] member of
    each [RequestHandler] (absent when it is null; the value is the
    duration the timer was started with), [next_object] is the address the
    next [new ClientConnection] returns. *)
Record State := {
  connections_ : list ConnPtr;
  connections_pending_ : list ConnPtr;
  pending_request_queue_ : list ReqPtr;
  is_closing_ : bool;
  objects : gmap nat C;
  timer : gmap nat nat;
  next_object : ConnPtr;
  trace : list Event
}.

Definition set_connections (l : list ConnPtr) (s : State) : State :=
  {| connections_ := l; connections_pending_ := connections_pending_ s;
     pending_request_queue_ := pending_request_queue_ s;
     is_closing_ := is_closing_ s; objects := objects s; timer := timer s;
     next_object := next_object s; trace := trace s |}.

Definition set_connections_pending (l : list ConnPtr) (s : State) : State :=
  {| connections_ := connections_ s; connections_pending_ := l;
     pending_request_queue_ := pending_request_queue_ s;
     is_closing_ := is_closing_ s; objects := objects s; timer := timer s;
     next_object := next_object s; trace := trace s |}.

Definition set_pending_request_queue (l : list ReqPtr) (s : State) : State :=
  {| connections_ := connections_ s;
     connections_pending_ := connections_pending_ s;
     pending_request_queue_ := l;
     is_closing_ := is_closing_ s; objects := objects s; timer := timer s;
     next_object := next_object s; trace := trace s |}.

Definition set_is_closing (b : bool) (s : State) : State :=
  {| connections_ := connections_ s;
     connections_pending_ := connections_pending_ s;
     pending_request_queue_ := pending_request_queue_ s;
     is_closing_ := b; objects := objects s; timer := timer s;
     next_object := next_object s; trace := trace s |}.

Definition set_objects (m : gmap nat C) (s : State) : State :=
  {| connections_ := connections_ s;
     connections_pending_ := connections_pending_ s;
     pending_request_queue_ := pending_request_queue_ s;
     is_closing_ := is_closing_ s; objects := m; timer := timer s;
     next_object := next_object s; trace := trace s |}.

Definition set_timer (m : gmap nat nat) (s : State) : State :=
  {| connections_ := connections_ s;
     connections_pending_ := connections_pending_ s;
     pending_request_queue_ := pending_request_queue_ s;
     is_closing_ := is_closing_ s; objects := objects s; timer := m;
     next_object := next_object s; trace := trace s |}.

Definition set_next_object (n : ConnPtr) (s : State) : State :=
  {| connections_ := connections_ s;
     connections_pending_ := connections_pending_ s;
     pending_request_queue_ := pending_request_queue_ s;
     is_closing_ := is_closing_ s; objects := objects s; timer := timer s;
     next_object := n; trace := trace s |}.

(** Record one call that leaves the pool. *)
Definition emit (e : Event) (s : State) : State :=
  {| connections_ := connections_ s;
     connections_pending_ := connections_pending_ s;
     pending_request_queue_ := pending_request_queue_ s;
     is_closing_ := is_closing_ s; objects := objects s; timer := timer s;
     next_object := next_object s; trace := trace s ++ [e] |}.

(** [*c]: the object a connection pointer refers to.  Every pointer the pool
    holds was returned by [new ClientConnection]; the default is only there
    to make the lookup total. *)
Definition deref (s : State) (c : ConnPtr) : C :=
  default cc_new (objects s !! c).

Definition store (c : ConnPtr) (o : C) (s : State) : State :=
  set_objects (<[c := o]> (objects s)) s.

(** [c->close()] and [c->defunct()] as seen from the pool: the call is
    recorded and the object moves on; the close completes later, through
    [on_connection_close]. *)
Definition Connection_close (c : ConnPtr) (s : State) : State :=
  emit (EvConnectionClose c) (store c (cc_close (deref s c)) s).

Definition Connection_defunct (c : ConnPtr) (s : State) : State :=
  emit (EvConnectionDefunct c) (store c (cc_defunct (deref s c)) s).

(** [c->execute(cb)] *)
Definition Connection_execute (c : ConnPtr) (cb : ResponseCallback)
    (s : State) : bool * State :=
  let '(o, accepted) := cc_execute (deref s c) cb in
  (accepted, emit (EvConnectionExecute c cb) (store c o s)).

(** [Pool::execute] *)
Definition execute (c : ConnPtr) (request_handler : ReqPtr) (s : State)
    : bool * State :=
  Connection_execute c (new_PoolHandler c request_handler) s.

(** [Pool::execute_pending_request] *)
Definition execute_pending_request (c : ConnPtr) (s : State) : State :=
  match pending_request_queue_ s with
  | [] => s
  | request_handler :: rest =>
      let s := set_pending_request_queue rest s in
      let s :=
        match timer s !! request_handler with
        | Some _ =>
            set_timer (delete request_handler (timer s))
              (emit (EvTimerStop request_handler) s)
        | None => s
        end in
      let '(accepted, s) := execute c request_handler s in
      if accepted then s
      else emit (EvRetryCallback (Some request_handler) RETRY_WITH_NEXT_HOST) s
  end.

(** [Pool::maybe_close] *)
Definition maybe_close (s : State) : State :=
  if is_closing_ s then
    let s :=
      foldl (λ s c, if is_closing (deref s c) then s else Connection_close c s)
            s (connections_ s) in
    if list_empty (connections_ s)
       && list_empty (connections_pending_ s)
       && list_empty (pending_request_queue_ s)
    then emit EvCloseCallback s
    else s
  else s.

(** [Pool::close] *)
Definition close (s : State) : State :=
  let s := set_is_closing true s in
  let s := foldl (λ s c, Connection_close c s) s (connections_ s) in
  maybe_close s.

(** [Pool::on_connection_connect] *)
Definition on_connection_connect (c : ConnPtr) (s : State) : State :=
  let s := emit EvConnectCallback s in
  let s := set_connections_pending (list_remove c (connections_pending_ s)) s in
  if is_closing_ s then Connection_close c s
  else if is_ready (deref s c) then
    execute_pending_request c (set_connections (connections_ s ++ [c]) s)
  else s.

(** [Pool::on_connection_close] *)
Definition on_connection_close (c : ConnPtr) (s : State) : State :=
  let s := set_connections (list_remove c (connections_ s)) s in
  let s := if is_defunct (deref s c) then set_is_closing true s else s in
  maybe_close s.

(** [Pool::spawn_connection]; the TLS session and the two bound callbacks the
    source passes to the constructor of the connection do not enter the
    state of the pool. *)
Definition spawn_connection (s : State) : State :=
  if is_closing_ s then s
  else
    let c := next_object s in
    let s := set_next_object (S c) (store c cc_new s) in
    let s := emit (EvConnectionConnect c) (store c (cc_connect (deref s c)) s) in
    set_connections_pending (connections_pending_ s ++ [c]) s.

(** [static Pool::least_busy_comp], on the pointed-to objects. *)
Definition least_busy_comp (s : State) (a b : ConnPtr) : bool :=
  available_streams (deref s a) <? available_streams (deref s b).

(** [Pool::find_least_busy]: [*it] is undefined when [it] is [end()]. *)
Definition find_least_busy (s : State) : outcome (option ConnPtr) :=
  let it := max_element (least_busy_comp s) (connections_ s) in
  match connections_ s !! it with
  | None => Undefined DerefEnd
  | Some c =>
      if is_ready (deref s c) && negb (available_streams (deref s c) =? 0)
      then Done (Some c)
      else Done None
  end.

Section configured.
Variable config_ : Config.

(** The state the member initialisers of [Pool::Pool] set up, before the
    body of the constructor runs. *)
Definition Pool_members : State :=
  {| connections_ := []; connections_pending_ := [];
     pending_request_queue_ := []; is_closing_ := false;
     objects := ∅; timer := ∅; next_object := 0; trace := [] |}.

(** [Pool::Pool] *)
Definition Pool_new : State :=
  Nat.iter (core_connections_per_host config_) spawn_connection Pool_members.

(** [Pool::maybe_spawn_connection] *)
Definition maybe_spawn_connection (s : State) : State :=
  if max_simultaneous_creation config_ <=? length (connections_pending_ s)
  then s
  else if max_connections_per_host config_
            <=? length (connections_ s) + length (connections_pending_ s)
  then s
  else spawn_connection s.

(** [Pool::borrow_connection]; the returned pointer is [None] for
    [nullptr]. *)
Definition borrow_connection (s : State) : outcome (option ConnPtr) * State :=
  if is_closing_ s then (Done None, s)
  else if list_empty (connections_ s) then
    (Done None, Nat.iter (core_connections_per_host config_) spawn_connection s)
  else
    let s := maybe_spawn_connection s in
    (find_least_busy s, s).

(** [Pool::on_timeout]; [r] is [timer->data()]. *)
Definition on_timeout (r : ReqPtr) (s : State) : State :=
  let s := set_pending_request_queue (list_remove r (pending_request_queue_ s)) s in
  let s := emit (EvRetryCallback (Some r) RETRY_WITH_NEXT_HOST) s in
  maybe_close s.

(** [Pool::wait_for_connection] *)
Definition wait_for_connection (request_handler : ReqPtr) (s : State)
    : bool * State :=
  if is_closing_ s
     || (max_pending_requests config_ <? length (pending_request_queue_ s) + 1)
  then (false, s)
  else
    let s := emit (EvTimerStart request_handler (connect_timeout config_)) s in
    let s := set_timer (<[request_handler := connect_timeout config_]> (timer s)) s in
    (true, set_pending_request_queue (pending_request_queue_ s ++ [request_handler]) s).

(** *** The response router [Pool::PoolHandler] *)

(** The data members of a [PoolHandler] other than [pool_]:
    [connection_] and the [unique_ptr] [request_handler_]. *)
Record PoolHandler := {
  connection_ : ConnPtr;
  request_handler_ : option ReqPtr
}.

(** [request_handler_->f(..)]: a call through the [unique_ptr]. *)
Definition through_request_handler (h : PoolHandler) (call : ReqPtr → Event)
    (s : State) : outcome State :=
  match request_handler_ h with
  | Some r => Done (emit (call r) s)
  | None => Undefined DerefNull
  end.

(** [PoolHandler::finish_request] *)
Definition PoolHandler_finish_request (h : PoolHandler) (s : State) : State :=
  if is_ready (deref s (connection_ h))
  then execute_pending_request (connection_ h) s
  else s.

(** [PoolHandler::on_error_response]; the [bool] that
    [connection_->execute] returns is dropped by the source. *)
Definition PoolHandler_on_error_response (h : PoolHandler) (response : Message)
    (s : State) : outcome (PoolHandler * State) :=
  if decide (error_code response = CQL_ERROR_UNPREPARED) then
    let released := request_handler_ h in
    let h := {| connection_ := connection_ h; request_handler_ := None |} in
    let '(_, s) :=
      Connection_execute (connection_ h) (new_PrepareHandler released) s in
    Done (h, s)
  else
    s ← through_request_handler h (λ r, EvHandlerOnSet r response) s;
    Done (h, s).

(** [PoolHandler::on_set] *)
Definition PoolHandler_on_set (h : PoolHandler) (response : Message)
    (s : State) : outcome (PoolHandler * State) :=
  '(h, s) ←
    (if decide (opcode response = CQL_OPCODE_RESULT) then
       s ← through_request_handler h (λ r, EvHandlerOnSet r response) s;
       Done (h, s)
     else if decide (opcode response = CQL_OPCODE_ERROR) then
       PoolHandler_on_error_response h response s
     else
       s ← through_request_handler h (λ r, EvHandlerOnSet r response) s;
       Done (h, Connection_defunct (connection_ h) s));
  Done (h, PoolHandler_finish_request h s).

(** [PoolHandler::on_error] *)
Definition PoolHandler_on_error (h : PoolHandler) (code : Z) (message : string)
    (s : State) : outcome (PoolHandler * State) :=
  s ←
    (if decide (code = CASS_ERROR_LIB_WRITE_ERROR) then
       Done (emit (EvRetryCallback (request_handler_ h) RETRY_WITH_NEXT_HOST) s)
     else
       through_request_handler h (λ r, EvHandlerOnError r code message) s);
  Done (h, PoolHandler_finish_request h s).

(** [PoolHandler::on_timeout] *)
Definition PoolHandler_on_timeout (h : PoolHandler) (s : State)
    : outcome (PoolHandler * State) :=
  s ← through_request_handler h EvHandlerOnTimeout s;
  Done (h, PoolHandler_finish_request h s).

(** *** The event loop around the pool *)

(** What the owner of the pool, the connections and the timers can do to
    it between two turns of the event loop.  [op_connection_moves] is the
    connection's own progress (handshake done, streams taken or freed,
    failure): it replaces the state of one connection object. *)
Inductive Op :=
  | op_borrow_connection
  | op_execute (c : ConnPtr) (r : ReqPtr)
  | op_wait_for_connection (r : ReqPtr)
  | op_close
  | op_on_connection_connect (c : ConnPtr)
  | op_on_connection_close (c : ConnPtr)
  | op_on_timeout (r : ReqPtr)
  | op_on_set (h : PoolHandler) (response : Message)
  | op_on_error (h : PoolHandler) (code : Z) (message : string)
  | op_on_request_timeout (h : PoolHandler)
  | op_connection_moves (c : ConnPtr) (o : C).

(** A connection reports the end of its connect sequence only while the
    pool still lists it as connecting. *)
Definition enabled (op : Op) (s : State) : bool :=
  match op with
  | op_on_connection_connect c => bool_decide (c ∈ connections_pending_ s)
  | _ => true
  end.

Definition apply_op (op : Op) (s : State) : outcome State :=
  match op with
  | op_borrow_connection =>
      let '(r, s) := borrow_connection s in _ ← r; Done s
  | op_execute c r => Done (execute c r s).2
  | op_wait_for_connection r => Done (wait_for_connection r s).2
  | op_close => Done (close s)
  | op_on_connection_connect c => Done (on_connection_connect c s)
  | op_on_connection_close c => Done (on_connection_close c s)
  | op_on_timeout r => Done (on_timeout r s)
  | op_on_set h response => snd <$> PoolHandler_on_set h response s
  | op_on_error h code message => snd <$> PoolHandler_on_error h code message s
  | op_on_request_timeout h => snd <$> PoolHandler_on_timeout h s
  | op_connection_moves c o => Done (store c o s)
  end.

(** [borrow_connection] running its initial-population loop again while
    sockets of an earlier population are still connecting. *)
Definition repopulates (op : Op) (s : State) : bool :=
  match op with
  | op_borrow_connection =>
      negb (is_closing_ s) && list_empty (connections_ s)
      && negb (list_empty (connections_pending_ s))
  | _ => false
  end.

(** Run a sequence of operations; [None] when one of them is not enabled,
    is excluded by [allowed], or leaves defined behaviour. *)
Fixpoint run (allowed : Op → State → bool) (ops : list Op) (s : State)
    : option State :=
  match ops with
  | [] => Some s
  | op :: ops' =>
      if enabled op s && allowed op s then
        match apply_op op s with
        | Done s' => run allowed ops' s'
        | Undefined _ => None
        end
      else None
  end.

Definition any_op (op : Op) (s : State) : bool := true.
Definition no_repopulation (op : Op) (s : State) : bool := negb (repopulates op s).
End configured.
End pool.

Arguments State C : clear implicits.
Arguments Op C : clear implicits.

(** ** Observations on states and traces *)

(** The comparison [a < b] on a key, the shape of [least_busy_comp]. *)
Definition by_key {A} (key : A → nat) (a b : A) : bool := key a <? key b.

(** The request a call dispatches: [c->execute(new PoolHandler(.., c, r))]
    dispatches [r]; no other call dispatches a queued request. *)
Definition dispatched_request (e : Event) : option ReqPtr :=
  match e with
  | EvConnectionExecute _ (new_PoolHandler _ r) => Some r
  | _ => None
  end.

(** The requests a trace dispatches, in the order of the calls. *)
Definition dispatched (t : list Event) : list ReqPtr :=
  omap dispatched_request t.

Section observations.
Context `{!Protocol} {C : Type} `{!ClientConnection C}.
Implicit Types (s : State C) (c : ConnPtr) (r : ReqPtr) (e : Event).

(** The calls made between two states of one execution. *)
Definition since (s s' : State C) : list Event :=
  drop (length (trace s)) (trace s').

(** Calls that reach neither the caller's handler nor the owner's close
    notification. *)
Definition quiet (e : Event) : Prop :=
  is_caller_callback e = false ∧ e ≠ EvCloseCallback.

(** The calls [execute_pending_request] makes for the head [r] of the
    queue: stop the timer if one is armed, dispatch, and hand the request to
    [retry_callback_] if the transport refused it. *)
Definition dispatch_calls c r s : list Event :=
  (if timer s !! r is Some _ then [EvTimerStop r] else [])
  ++ [EvConnectionExecute c (new_PoolHandler c r)]
  ++ (if (cc_execute (deref s c) (new_PoolHandler c r)).2 then []
      else [EvRetryCallback (Some r) RETRY_WITH_NEXT_HOST]).

(** The condition under which [maybe_close] calls [close_callback_]. *)
Definition drained s : bool :=
  list_empty (connections_ s)
  && list_empty (connections_pending_ s)
  && list_empty (pending_request_queue_ s).

(** The three entry points of a [PoolHandler] touch neither connection list
    and can only shorten the queue. *)
Definition router_frame s s' : Prop :=
  connections_ s' = connections_ s
  ∧ connections_pending_ s' = connections_pending_ s
  ∧ is_closing_ s' = is_closing_ s
  ∧ length (pending_request_queue_ s') ≤ length (pending_request_queue_ s).

(** A step from [s] to [s'] that does not call [close_callback_]. *)
Definition silent_step s s' : Prop :=
  ∃ d, trace s' = trace s ++ d ∧ EvCloseCallback ∉ d.

(** A step from [s] to [s'] that calls [close_callback_] only if it leaves the
    pool closing and drained. *)
Definition notifies_only_drained s s' : Prop :=
  ∃ d, trace s' = trace s ++ d
       ∧ (EvCloseCallback ∈ d → is_closing_ s' = true ∧ drained s' = true).

(** A step that leaves the queue and the timers of the request handlers as
    they were. *)
Definition keeps_waiting s s' : Prop :=
  pending_request_queue_ s' = pending_request_queue_ s ∧ timer s' = timer s.

(** The owner does not queue a request handler that is waiting already. *)
Definition admits_once (op : Op C) s : bool :=
  match op with
  | op_wait_for_connection r => bool_decide (r ∉ pending_request_queue_ s)
  | _ => true
  end.

Section bounds.
Variable config_ : Config.

(** No request waits twice, and every waiting request has the timer that
    [wait_for_connection] started for it. *)
Definition timers_armed s : Prop :=
  NoDup (pending_request_queue_ s)
  ∧ ∀ r, r ∈ pending_request_queue_ s →
         timer s !! r = Some (connect_timeout config_).

(** The three bounds of the data model. *)
Definition creation_bounded s : Prop :=
  length (connections_pending_ s)
  ≤ core_connections_per_host config_ `max` max_simultaneous_creation config_.

Definition connections_bounded s : Prop :=
  length (connections_ s) + length (connections_pending_ s)
  ≤ core_connections_per_host config_ `max` max_connections_per_host config_.

Definition queue_bounded s : Prop :=
  length (pending_request_queue_ s) ≤ max_pending_requests config_.
End bounds.
End observations.

(** ** A concrete protocol and a concrete connection, for the examples *)

(** The values the CQL binary protocol gives to the constants of [Protocol]
    (result opcode 8, error opcode 0, error code 0x2500 for an unprepared
    statement) and a library error code for the write error. *)
#[global] Instance cql_protocol : Protocol := {|
  CQL_OPCODE_RESULT := 0x08;
  CQL_OPCODE_ERROR := 0x00;
  CQL_ERROR_UNPREPARED := 0x2500;
  CASS_ERROR_LIB_WRITE_ERROR := 0x0100000B
|}.

(** Modelled from the spec: the class [ClientConnection]
    (client_connection.hpp is not part of the verified sources).  The spec
    gives a connection the states connecting, ready, closing and defunct, and
    a ready connection a count of available request slots; [dispatch] is
    accepted by a ready connection with a free slot and takes that slot. *)
Inductive ConnectionState := connecting | ready | closing | defunct.

Record Connection := {
  state_ : ConnectionState;
  capacity_ : nat
}.

#[global] Instance ConnectionState_eq_dec : EqDecision ConnectionState.
Proof. solve_decision. Defined.

Definition Connection_in (st : ConnectionState) (o : Connection) : bool :=
  bool_decide (state_ o = st).

#[global] Instance spec_connection : ClientConnection Connection := {|
  cc_new := {| state_ := connecting; capacity_ := 0 |};
  cc_connect := λ o, o;
  cc_close := λ o,
    {| state_ := if Connection_in defunct o then defunct else closing;
       capacity_ := capacity_ o |};
  cc_defunct := λ o, {| state_ := defunct; capacity_ := capacity_ o |};
  cc_execute := λ o _,
    if Connection_in ready o && negb (capacity_ o =? 0)
    then ({| state_ := ready; capacity_ := pred (capacity_ o) |}, true)
    else (o, false);
  is_ready := Connection_in ready;
  is_closing := Connection_in closing;
  is_defunct := Connection_in defunct;
  available_streams := capacity_
|}.

(** ** The configurations and connections of the examples *)

(** Connection objects of the examples. *)
Definition ready_with (n : nat) : Connection := {| state_ := ready; capacity_ := n |}.
Definition closing_with (n : nat) : Connection := {| state_ := closing; capacity_ := n |}.
Definition defunct_with (n : nat) : Connection := {| state_ := defunct; capacity_ := n |}.

(** One core connection, at most one connection per host, at most one
    connect in flight. *)
Definition config_1_1_1 : Config :=
  {| core_connections_per_host := 1; max_connections_per_host := 1;
     max_simultaneous_creation := 1; max_pending_requests := 2;
     connect_timeout := 5000 |}.

(** Two core connections of at most two, at most one connect in flight. *)
Definition config_2_2_1 : Config :=
  {| core_connections_per_host := 2; max_connections_per_host := 2;
     max_simultaneous_creation := 1; max_pending_requests := 2;
     connect_timeout := 5000 |}.

(** Three core connections of at most three. *)
Definition config_3_3_1 : Config :=
  {| core_connections_per_host := 3; max_connections_per_host := 3;
     max_simultaneous_creation := 1; max_pending_requests := 2;
     connect_timeout := 5000 |}.

(** One core connection of at most three. *)
Definition config_1_3_1 : Config :=
  {| core_connections_per_host := 1; max_connections_per_host := 3;
     max_simultaneous_creation := 1; max_pending_requests := 2;
     connect_timeout := 5000 |}.

(** The pool of the draining examples: connections 0 and 1 are ready,
    connection 2 is still connecting, and connection 0 has just failed. *)
Definition one_defunct_of_three : list (Op Connection) :=
  [op_connection_moves 0 (ready_with 128); op_on_connection_connect 0;
   op_connection_moves 1 (ready_with 128); op_on_connection_connect 1;
   op_connection_moves 0 (defunct_with 128)].

(** Three ready connections with 7, 7 and 3 free streams. *)
Definition three_ready : list (Op Connection) :=
  [op_connection_moves 0 (ready_with 7); op_on_connection_connect 0;
   op_connection_moves 1 (ready_with 7); op_on_connection_connect 1;
   op_connection_moves 2 (ready_with 3); op_on_connection_connect 2].

(** ** Reading a trace *)

Section facts.
Context `{!Protocol} {C : Type} `{!ClientConnection C}.
Implicit Types (s : State C) (c : ConnPtr) (r : ReqPtr) (e : Event).

Lemma since_app s s' d : trace s' = trace s ++ d → since s s' = d.
Proof. intros E. unfold since. rewrite E. apply drop_app_length. Qed.

Lemma close_notifications_app t1 t2 :
  close_notifications (t1 ++ t2) = close_notifications t1 + close_notifications t2.
Proof. unfold close_notifications. by rewrite filter_app, length_app. Qed.

Lemma quiet_no_notification d : Forall quiet d → close_notifications d = 0.
Proof.
  induction 1 as [|e d [_ Hne] _ IH]; [done|].
  unfold close_notifications in *. rewrite filter_cons.
  destruct (decide (e = EvCloseCallback)); [done|apply IH].
Qed.

(** *** [Pool::execute] and [Pool::execute_pending_request] *)

Lemma Connection_execute_trace c cb s :
  trace (Connection_execute c cb s).2 = trace s ++ [EvConnectionExecute c cb].
Proof. unfold Connection_execute. by destruct (cc_execute _ _). Qed.

Lemma Connection_execute_pool c cb s :
  let s' := (Connection_execute c cb s).2 in
  connections_ s' = connections_ s
  ∧ connections_pending_ s' = connections_pending_ s
  ∧ pending_request_queue_ s' = pending_request_queue_ s
  ∧ is_closing_ s' = is_closing_ s
  ∧ timer s' = timer s.
Proof. unfold Connection_execute. by destruct (cc_execute _ _). Qed.

Lemma dispatch_calls_quiet c r s : Forall quiet (dispatch_calls c r s).
Proof.
  unfold dispatch_calls.
  repeat (apply Forall_app; split);
    repeat case_match; repeat constructor; done.
Qed.

Lemma execute_pending_request_head c r rest s :
  pending_request_queue_ s = r :: rest →
  let s' := execute_pending_request c s in
  pending_request_queue_ s' = rest
  ∧ timer s' = delete r (timer s)
  ∧ trace s' = trace s ++ dispatch_calls c r s
  ∧ connections_ s' = connections_ s
  ∧ connections_pending_ s' = connections_pending_ s
  ∧ is_closing_ s' = is_closing_ s.
Proof.
  intros Hq. unfold execute_pending_request, execute, Connection_execute,
    dispatch_calls. rewrite Hq. cbn.
  destruct (timer s !! r) as [t|] eqn:Ht; cbn;
    unfold deref; cbn;
    destruct (cc_execute _ _) as [o [|]]; cbn;
    rewrite <- ?app_assoc; repeat split; try done;
    symmetry; by apply delete_id.
Qed.

Lemma execute_pending_request_empty c s :
  pending_request_queue_ s = [] → execute_pending_request c s = s.
Proof. intros Hq. unfold execute_pending_request. by rewrite Hq. Qed.

Lemma execute_pending_request_quiet c s :
  ∃ d, trace (execute_pending_request c s) = trace s ++ d ∧ Forall quiet d.
Proof.
  destruct (pending_request_queue_ s) as [|r rest] eqn:Hq.
  - exists []. rewrite execute_pending_request_empty by done.
    by rewrite app_nil_r.
  - exists (dispatch_calls c r s). split; [|apply dispatch_calls_quiet].
    by destruct (execute_pending_request_head c r rest s Hq) as (_&_&?&_).
Qed.

Lemma execute_pending_request_pool c s :
  let s' := execute_pending_request c s in
  connections_ s' = connections_ s
  ∧ connections_pending_ s' = connections_pending_ s
  ∧ is_closing_ s' = is_closing_ s
  ∧ length (pending_request_queue_ s') ≤ length (pending_request_queue_ s).
Proof.
  destruct (pending_request_queue_ s) as [|r rest] eqn:Hq.
  - cbn. rewrite execute_pending_request_empty by done. by rewrite Hq.
  - destruct (execute_pending_request_head c r rest s Hq) as (E&_&_&?&?&?).
    cbn in *. rewrite E. repeat split; try done. cbn. lia.
Qed.

(** C9: with a non-empty queue [execute_pending_request(connection)] pops
    exactly the head request, stops that request's timer before it calls
    [execute], dispatches the request on the given connection and, when the
    transport refuses it, passes it to [retry_callback_] with
    [RETRY_WITH_NEXT_HOST]; the rest of the queue is left as it was, so the
    request is not queued again.  With an empty queue the call changes
    nothing. *)
Theorem execute_pending_request_fifo c s :
  match pending_request_queue_ s with
  | [] => execute_pending_request c s = s
  | r :: rest =>
      let s' := execute_pending_request c s in
      let accepted := (cc_execute (deref s c) (new_PoolHandler c r)).2 in
      pending_request_queue_ s' = rest
      ∧ timer s' !! r = None
      ∧ since s s' =
          (if timer s !! r is Some _ then [EvTimerStop r] else [])
          ++ [EvConnectionExecute c (new_PoolHandler c r)]
          ++ (if accepted then []
              else [EvRetryCallback (Some r) RETRY_WITH_NEXT_HOST])
  end.
Proof.
  destruct (pending_request_queue_ s) as [|r rest] eqn:Hq.
  - by apply execute_pending_request_empty.
  - destruct (execute_pending_request_head c r rest s Hq) as (Hr&Ht&Htr&_).
    cbn in *. split; [done|]. split.
    + rewrite Ht. apply lookup_delete_eq.
    + by apply since_app.
Qed.
End facts.

(** ** The pending request queue *)

Section queue.
Context `{!Protocol} {C : Type} `{!ClientConnection C}.
Variable config_ : Config.
Implicit Types (s : State C) (c : ConnPtr) (r : ReqPtr).

(** C4: [wait_for_connection(request)] fails and leaves every part of the
    state as it was exactly when the pool is closing or the queue already
    holds [max_pending_requests] requests; otherwise, with the pool open and
    the queue strictly below the limit, it starts a timer of
    [connect_timeout] for the request, appends the request at the tail of
    the queue and succeeds.  The queue never holds more than
    [max_pending_requests] requests (see [run_queue_bounded]), which is the
    hypothesis. *)
Theorem wait_for_connection_admission r s :
  length (pending_request_queue_ s) ≤ max_pending_requests config_ →
  let rejected :=
    is_closing_ s = true
    ∨ length (pending_request_queue_ s) = max_pending_requests config_ in
  let admitted :=
    is_closing_ s = false
    ∧ length (pending_request_queue_ s) < max_pending_requests config_ in
  let s' := (wait_for_connection config_ r s).2 in
  ((wait_for_connection config_ r s).1 = false ↔ rejected)
  ∧ ((wait_for_connection config_ r s).1 = true ↔ admitted)
  ∧ (rejected → wait_for_connection config_ r s = (false, s))
  ∧ (admitted →
       pending_request_queue_ s' = pending_request_queue_ s ++ [r]
       ∧ timer s' !! r = Some (connect_timeout config_)
       ∧ since s s' = [EvTimerStart r (connect_timeout config_)]
       ∧ connections_ s' = connections_ s
       ∧ connections_pending_ s' = connections_pending_ s
       ∧ is_closing_ s' = false
       ∧ objects s' = objects s).
Proof.
  intros Hle rejected admitted.
  assert (Hrej : (wait_for_connection config_ r s).1 = false ↔ rejected).
  { unfold wait_for_connection, rejected.
    destruct (is_closing_ s); cbn [orb fst]; [by split; [left|]|].
    destruct (Nat.ltb_spec (max_pending_requests config_)
                (length (pending_request_queue_ s) + 1)); cbn [fst].
    - split; [right; lia|done].
    - split; [done|intros [|]; [done|lia]]. }
  assert (Hadm : (wait_for_connection config_ r s).1 = true ↔ admitted).
  { unfold admitted. destruct ((wait_for_connection config_ r s).1) eqn:E.
    - split; [intros _|done].
      assert (Hn : ¬ rejected) by (intros Hr; by apply Hrej in Hr).
      unfold rejected in Hn.
      destruct (is_closing_ s); [exfalso; apply Hn; by left|].
      split; [done|].
      destruct (decide (length (pending_request_queue_ s)
                        = max_pending_requests config_)); [|lia].
      exfalso. apply Hn. by right.
    - split; [done|]. intros [Ho Hlt].
      assert (Hr : rejected) by (by apply Hrej).
      destruct Hr as [Hc|Hl]; [congruence|lia]. }
  split; [done|]. split; [done|]. split.
  - intros Hr. apply Hrej in Hr. revert Hr. unfold wait_for_connection.
    by case_match.
  - intros Ha. apply Hadm in Ha. destruct Hadm as [Hadm _].
    destruct (Hadm Ha) as [Ho _]. revert Ha. unfold wait_for_connection.
    case_match; [done|]. intros _. cbn. repeat split; try done.
    + apply lookup_insert_eq.
    + by apply since_app.
Qed.
End queue.

(** One below the limit admits; at the limit the request is refused. *)
Lemma wait_for_connection_admission_witness :
  let cfg := {| core_connections_per_host := 0; max_connections_per_host := 2;
                max_simultaneous_creation := 1; max_pending_requests := 2;
                connect_timeout := 5000 |} in
  let s1 := (wait_for_connection cfg 7 (Pool_new (C := Connection) cfg)).2 in
  let s2 := (wait_for_connection cfg 8 s1).2 in
  pending_request_queue_ s2 = [7; 8]
  ∧ wait_for_connection cfg 9 s2 = (false, s2).
Proof.
  cbv zeta.
  set (cfg := {| core_connections_per_host := 0; max_connections_per_host := 2;
                max_simultaneous_creation := 1; max_pending_requests := 2;
                connect_timeout := 5000 |}).
  set (s1 := (wait_for_connection cfg 7 (Pool_new (C := Connection) cfg)).2).
  split; [reflexivity|].
  apply (wait_for_connection_admission cfg 9 (wait_for_connection cfg 8 s1).2);
    [vm_compute; lia|].
  right. reflexivity.
Defined.

(** ** The response router *)

Section router.
Context `{!Protocol} {C : Type} `{!ClientConnection C}.
Implicit Types (s : State C) (c : ConnPtr) (r : ReqPtr) (h : PoolHandler).

Lemma finish_request_quiet h s :
  ∃ d, trace (PoolHandler_finish_request h s) = trace s ++ d ∧ Forall quiet d.
Proof.
  unfold PoolHandler_finish_request. case_match.
  - apply execute_pending_request_quiet.
  - exists []. by rewrite app_nil_r.
Qed.

Lemma finish_request_pool h s :
  let s' := PoolHandler_finish_request h s in
  connections_ s' = connections_ s
  ∧ connections_pending_ s' = connections_pending_ s
  ∧ is_closing_ s' = is_closing_ s
  ∧ length (pending_request_queue_ s') ≤ length (pending_request_queue_ s).
Proof.
  unfold PoolHandler_finish_request. case_match; [|done].
  apply execute_pending_request_pool.
Qed.

(** C7: when an in-flight request fails with the transport-level write
    error, [PoolHandler::on_error] does not enter the caller's handler at
    all: its first call is [retry_callback_] for that request with
    [RETRY_WITH_NEXT_HOST], and everything after it is the dispatch of the
    next queued request.  For every other error code its first call is the
    caller's [on_error] with the same code and message. *)
Theorem on_error_write_failure_retries c r code message s :
  let h := {| connection_ := c; request_handler_ := Some r |} in
  ∃ s' d,
    PoolHandler_on_error h code message s = Done (h, s')
    ∧ Forall quiet d
    ∧ since s s' =
        (if decide (code = CASS_ERROR_LIB_WRITE_ERROR)
         then EvRetryCallback (Some r) RETRY_WITH_NEXT_HOST
         else EvHandlerOnError r code message) :: d.
Proof.
  intros h. unfold PoolHandler_on_error, through_request_handler.
  destruct (decide (code = CASS_ERROR_LIB_WRITE_ERROR)); cbn;
    match goal with
    | |- context [PoolHandler_finish_request h ?s1] =>
        destruct (finish_request_quiet h s1) as (d & Hd & Hq)
    end;
    eexists _, d; (split; [reflexivity|]); (split; [done|]);
    apply since_app; rewrite Hd; cbn; by rewrite <- app_assoc.
Qed.

(** C6: when the response to a dispatched request has the error opcode and
    its body carries the unprepared error code, [PoolHandler::on_set] never
    enters the caller's handler.  Its first call executes a new
    [PrepareHandler], built from the released request handler, on the same
    connection; afterwards the [PoolHandler] no longer holds the request
    handler.  The hypothesis says that the two [case] labels of the
    [switch] on the opcode differ. *)
Theorem on_set_unprepared_reprepares c r s :
  CQL_OPCODE_RESULT ≠ CQL_OPCODE_ERROR →
  let h := {| connection_ := c; request_handler_ := Some r |} in
  let response :=
    {| opcode := CQL_OPCODE_ERROR; error_code := CQL_ERROR_UNPREPARED |} in
  ∃ s' d,
    PoolHandler_on_set h response s
      = Done ({| connection_ := c; request_handler_ := None |}, s')
    ∧ since s s' = EvConnectionExecute c (new_PrepareHandler (Some r)) :: d
    ∧ Forall (λ e, is_caller_callback e = false) d.
Proof.
  intros Hne h response.
  unfold PoolHandler_on_set, PoolHandler_on_error_response. cbn.
  destruct (decide (CQL_OPCODE_ERROR = CQL_OPCODE_RESULT)); [congruence|].
  destruct (decide (CQL_OPCODE_ERROR = CQL_OPCODE_ERROR)); [|done].
  destruct (decide (CQL_ERROR_UNPREPARED = CQL_ERROR_UNPREPARED)); [|done].
  pose proof (Connection_execute_trace c (new_PrepareHandler (Some r)) s) as Ht.
  destruct (Connection_execute c (new_PrepareHandler (Some r)) s) as [b s1].
  cbn in *.
  destruct (finish_request_quiet
              {| connection_ := c; request_handler_ := None |} s1)
    as (d & Hd & Hq).
  eexists _, d. split; [reflexivity|]. split.
  - apply since_app. rewrite Hd, Ht. by rewrite <- app_assoc.
  - eapply Forall_impl; [exact Hq|]. by intros ev [? _].
Qed.
End router.

(** With the constants of the CQL protocol: connection 3 answers request 7
    with an unprepared error while request 8 waits in the queue. *)
Lemma on_set_unprepared_reprepares_witness :
  ∃ s' d,
    PoolHandler_on_set (C := Connection)
      {| connection_ := 3; request_handler_ := Some 7 |}
      {| opcode := CQL_OPCODE_ERROR; error_code := CQL_ERROR_UNPREPARED |}
      (set_pending_request_queue [8] Pool_members)
      = Done ({| connection_ := 3; request_handler_ := None |}, s')
    ∧ since (set_pending_request_queue [8] Pool_members) s'
        = EvConnectionExecute 3 (new_PrepareHandler (Some 7)) :: d
    ∧ Forall (λ e, is_caller_callback e = false) d.
Proof.
  apply (on_set_unprepared_reprepares (C := Connection) 3 7
           (set_pending_request_queue [8] Pool_members)).
  vm_compute. discriminate.
Defined.

(** ** The least-busy selector *)

Section max_element.
Context {A : Type} (key : A → nat).

Local Abbreviation comp := (by_key key).

(** What the scan of [std::max_element] returns when it has reached
    position [first] holding the element [x] of position [largest]: either
    nothing in the rest is larger, or the first strictly largest element of
    the rest. *)
Lemma max_element_scan_spec (rest : list A) :
  ∀ x largest first,
    let i := max_element_scan comp largest x first rest in
    (i = largest ∧ Forall (λ y, key y ≤ key x) rest)
    ∨ (∃ k y, i = first + k ∧ rest !! k = Some y ∧ key x < key y
              ∧ Forall (λ z, key z ≤ key y) rest
              ∧ ∀ j z, j < k → rest !! j = Some z → key z < key y).
Proof.
  induction rest as [|y rest IH]; intros x largest first;
    cbn [max_element_scan]; cbv zeta.
  - by left.
  - replace (comp x y) with (key x <? key y) by done.
    destruct (Nat.ltb_spec (key x) (key y)) as [Hlt|Hge].
    + right. destruct (IH y first (S first)) as [[-> Hall]|(k&y'&->&Hk&Hy&Hall&Hfirst)].
      * exists 0, y. split_and!; [lia|done|done| |intros; lia].
        constructor; [done|exact Hall].
      * exists (S k), y'. split_and!; [lia|done|lia| |].
        -- constructor; [lia|exact Hall].
        -- intros [|j] z Hj Hz; cbn in Hz; [inversion Hz; by subst|].
           apply (Hfirst j); [lia|done].
    + destruct (IH x largest (S first)) as [[-> Hall]|(k&y'&->&Hk&Hy&Hall&Hfirst)].
      * left. split; [done|]. constructor; [done|exact Hall].
      * right. exists (S k), y'. split_and!; [lia|done|done| |].
        -- constructor; [lia|exact Hall].
        -- intros [|j] z Hj Hz; cbn in Hz; [inversion Hz; subst; lia|].
           apply (Hfirst j); [lia|done].
Qed.

(** On a non-empty list [std::max_element] points at an element, no element
    of the list is larger, and every element before it is strictly
    smaller. *)
Lemma max_element_spec (l : list A) :
  l ≠ [] →
  ∃ m, l !! max_element comp l = Some m
       ∧ (∀ z, z ∈ l → key z ≤ key m)
       ∧ (∀ j z, j < max_element comp l → l !! j = Some z → key z < key m).
Proof.
  destruct l as [|x rest]; [done|intros _]. cbn.
  destruct (max_element_scan_spec rest x 0 1) as [[-> Hall]|(k&y&->&Hk&Hy&Hall&Hfirst)].
  - exists x. split_and!; [done| |intros; lia].
    intros z [->|Hz]%elem_of_cons; [done|].
    rewrite Forall_forall in Hall. by apply Hall.
  - exists y. split_and!; [done| |].
    + intros z [->|Hz]%elem_of_cons; [lia|].
      rewrite Forall_forall in Hall. by apply Hall.
    + intros [|j] z Hj Hz; cbn in Hz; [inversion Hz; subst; lia|].
      apply (Hfirst j); [lia|done].
Qed.

End max_element.

Section selector.
Context `{!Protocol} {C : Type} `{!ClientConnection C}.
Implicit Types (s : State C) (c : ConnPtr).

Lemma find_least_busy_nonempty s :
  connections_ s ≠ [] →
  ∃ m, connections_ s !! max_element (least_busy_comp s) (connections_ s) = Some m
       ∧ (∀ c, c ∈ connections_ s →
            available_streams (deref s c) ≤ available_streams (deref s m))
       ∧ find_least_busy s =
           Done (if is_ready (deref s m)
                    && negb (available_streams (deref s m) =? 0)
                 then Some m else None).
Proof.
  intros Hne.
  destruct (max_element_spec (λ c, available_streams (deref s c))
              (connections_ s) Hne) as (m & Hm & Hmax & _).
  exists m. split; [exact Hm|]. split; [exact Hmax|].
  unfold find_least_busy.
  change (max_element (least_busy_comp s) (connections_ s))
    with (max_element (by_key (λ c, available_streams (deref s c)))
            (connections_ s)).
  rewrite Hm. by case_match.
Qed.

(** C5: called on an empty ready list, [find_least_busy] does not return "no
    connection": it dereferences the past-the-end iterator that
    [std::max_element] returns.  Only the guard of its caller
    [borrow_connection] keeps the pool's own path away from that call. *)
Theorem find_least_busy_empty_dereferences_end (config_ : Config) s :
  find_least_busy (set_connections [] s) = Undefined DerefEnd
  ∧ (borrow_connection config_ (set_connections [] s)).1 = Done None.
Proof.
  split; [reflexivity|].
  unfold borrow_connection. cbn [is_closing_ connections_ set_connections].
  by destruct (is_closing_ s).
Qed.

(** C10: [find_least_busy] takes the maximum of [available_streams] over the
    whole of [connections_] and tests only that element: when the maximal
    element is not ready or has no available stream the result is "no
    connection", whatever the other connections are. *)
Theorem find_least_busy_checks_only_maximum s :
  connections_ s ≠ [] →
  ∃ m, connections_ s !! max_element (least_busy_comp s) (connections_ s) = Some m
       ∧ (∀ c, c ∈ connections_ s →
            available_streams (deref s c) ≤ available_streams (deref s m))
       ∧ (is_ready (deref s m) = false ∨ available_streams (deref s m) = 0 →
            find_least_busy s = Done None)
       ∧ (is_ready (deref s m) = true → available_streams (deref s m) ≠ 0 →
            find_least_busy s = Done (Some m)).
Proof.
  intros Hne. destruct (find_least_busy_nonempty s Hne) as (m & Hm & Hmax & Hf).
  exists m. repeat split; [done|done| |].
  - rewrite Hf. intros [->| ->]; [done|]. cbn. by rewrite andb_false_r.
  - rewrite Hf. intros -> Hs. by apply Nat.eqb_neq in Hs as ->.
Qed.
End selector.

(** ** Draining *)

Section draining.
Context `{!Protocol} {C : Type} `{!ClientConnection C}.
Implicit Types (s : State C) (c : ConnPtr) (r : ReqPtr) (l : list ConnPtr).

Lemma deref_Connection_close_ne c c' s :
  c ≠ c' → deref (Connection_close c s) c' = deref s c'.
Proof. intros Hne. unfold deref. cbn. by rewrite lookup_insert_ne. Qed.

(** The loop of [maybe_close] over a list of connections. *)
Lemma close_open_connections l : ∀ s,
  let s' := foldl (λ s c, if is_closing (deref s c) then s
                          else Connection_close c s) s l in
  connections_ s' = connections_ s
  ∧ connections_pending_ s' = connections_pending_ s
  ∧ pending_request_queue_ s' = pending_request_queue_ s
  ∧ is_closing_ s' = is_closing_ s
  ∧ ∃ d, trace s' = trace s ++ d
         ∧ Forall quiet d
         ∧ (∀ c, EvConnectionClose c ∈ d →
              c ∈ l ∧ is_closing (deref s c) = false)
         ∧ (∀ c, c ∈ l → is_closing (deref s c) = false →
              EvConnectionClose c ∈ d).
Proof.
  induction l as [|c l IH]; intros s; cbn.
  - split_and!; try done. exists []. rewrite app_nil_r.
    split_and!; [done|constructor|by intros ? ?%elem_of_nil
                |by intros ? ?%elem_of_nil].
  - destruct (is_closing (deref s c)) eqn:Hc.
    + destruct (IH s) as (?&?&?&?&d&Hd&Hq&Hin&Hout).
      split_and!; try done. exists d. split_and!; try done.
      * intros c' Hc'. destruct (Hin c' Hc'). split; [by right|done].
      * intros c' [->|Hl]%elem_of_cons Hn; [congruence|by apply Hout].
    + destruct (IH (Connection_close c s)) as (E1&E2&E3&E4&d&Hd&Hq&Hin&Hout).
      split_and!; try done.
      exists (EvConnectionClose c :: d). split_and!.
      * rewrite Hd. cbn. by rewrite <- app_assoc.
      * constructor; [done|exact Hq].
      * intros c' [Heq|Hd']%elem_of_cons.
        -- inversion Heq; subst. split; [by left|done].
        -- destruct (Hin c' Hd') as [Hl Hn]. split; [by right|].
           destruct (decide (c = c')) as [->|Hne]; [done|].
           by rewrite deref_Connection_close_ne in Hn.
      * intros c' Hl Hn. destruct (decide (c = c')) as [->|Hne]; [by left|].
        right. apply elem_of_cons in Hl as [->|Hl]; [done|].
        apply Hout; [done|]. by rewrite deref_Connection_close_ne.
Qed.

(** The loop of [close] over a list of connections. *)
Lemma close_all_connections l : ∀ s,
  let s' := foldl (λ s c, Connection_close c s) s l in
  connections_ s' = connections_ s
  ∧ connections_pending_ s' = connections_pending_ s
  ∧ pending_request_queue_ s' = pending_request_queue_ s
  ∧ is_closing_ s' = is_closing_ s
  ∧ trace s' = trace s ++ (EvConnectionClose <$> l).
Proof.
  induction l as [|c l IH]; intros s; cbn.
  - by rewrite app_nil_r.
  - destruct (IH (Connection_close c s)) as (?&?&?&?&Hd).
    split_and!; try done. rewrite Hd. cbn. by rewrite <- app_assoc.
Qed.

Lemma Forall_quiet_close l : Forall quiet (EvConnectionClose <$> l).
Proof. induction l; cbn; constructor; done. Qed.

(** [maybe_close] leaves the pool's lists alone; it closes the connections
    that are not closing yet and then notifies the owner once, exactly when
    the pool is closing and drained. *)
Lemma maybe_close_spec s :
  let s' := maybe_close s in
  connections_ s' = connections_ s
  ∧ connections_pending_ s' = connections_pending_ s
  ∧ pending_request_queue_ s' = pending_request_queue_ s
  ∧ is_closing_ s' = is_closing_ s
  ∧ ∃ d, trace s' =
           trace s ++ d
           ++ (if is_closing_ s && drained s then [EvCloseCallback] else [])
         ∧ Forall quiet d
         ∧ (∀ c, EvConnectionClose c ∈ d →
              is_closing_ s = true ∧ c ∈ connections_ s
              ∧ is_closing (deref s c) = false)
         ∧ (∀ c, is_closing_ s = true → c ∈ connections_ s →
              is_closing (deref s c) = false → EvConnectionClose c ∈ d).
Proof.
  unfold maybe_close, drained. destruct (is_closing_ s) eqn:Hcl; cbn [andb].
  - destruct (close_open_connections (connections_ s) s)
      as (E1&E2&E3&E4&d&Hd&Hq&Hin&Hout).
    cbv zeta in *. rewrite E1, E2, E3. rewrite Hcl in E4.
    destruct (list_empty (connections_ s) && list_empty (connections_pending_ s)
              && list_empty (pending_request_queue_ s)); cbn.
    + split_and!; try done. exists d. split_and!; try done.
      * by rewrite Hd, <- app_assoc.
      * intros c Hc. by destruct (Hin c Hc).
      * intros c _. apply Hout.
    + split_and!; try done. exists d. rewrite app_nil_r. split_and!; try done.
      * intros c Hc. by destruct (Hin c Hc).
      * intros c _. apply Hout.
  - split_and!; try done. exists []. rewrite !app_nil_r.
    split_and!; [done|constructor|by intros ? ?%elem_of_nil|done].
Qed.

Lemma maybe_close_notifications s :
  close_notifications (since s (maybe_close s))
  = if is_closing_ s && drained s then 1 else 0.
Proof.
  destruct (maybe_close_spec s) as (_&_&_&_&d&Hd&Hq&_).
  rewrite (since_app _ _ _ Hd), close_notifications_app.
  rewrite (quiet_no_notification d Hq). by case_match.
Qed.

Lemma close_spec s :
  let s' := close s in
  connections_ s' = connections_ s
  ∧ connections_pending_ s' = connections_pending_ s
  ∧ pending_request_queue_ s' = pending_request_queue_ s
  ∧ is_closing_ s' = true
  ∧ ∃ d, trace s' =
           trace s ++ d ++ (if drained s then [EvCloseCallback] else [])
         ∧ Forall quiet d.
Proof.
  unfold close. cbv zeta.
  pose proof (close_all_connections (connections_ (set_is_closing true s))
                (set_is_closing true s)) as HE.
  cbv zeta in HE.
  remember (foldl (λ s c, Connection_close c s) (set_is_closing true s)
              (connections_ (set_is_closing true s))) as s2 eqn:Hs2.
  clear Hs2. cbn in HE. destruct HE as (E1&E2&E3&E4&Hd).
  destruct (maybe_close_spec s2) as (F1&F2&F3&F4&d&Hd'&Hq&_).
  cbv zeta in *.
  assert (Hdr : drained s2 = drained s)
    by (unfold drained; by rewrite E1, E2, E3).
  rewrite F1, F2, F3, F4, E1, E2, E3, E4. split_and!; try done.
  exists ((EvConnectionClose <$> connections_ s) ++ d). split.
  - rewrite Hd', Hd, E4, Hdr. cbn [andb]. by rewrite <- !app_assoc.
  - apply Forall_app. split; [apply Forall_quiet_close|done].
Qed.

(** C3, as the source has it: [close()] has no memory of an earlier
    notification.  Each call invokes [close_callback_] once if the ready
    list, the connecting list and the request queue are all empty at that
    call and not at all otherwise; two calls in a row therefore notify the
    owner twice on a drained pool and never on a pool that still holds a
    connection or a queued request. *)
Theorem close_twice_notifications s :
  close_notifications (since s (close s)) = (if drained s then 1 else 0)
  ∧ close_notifications (since s (close (close s)))
    = (if drained s then 2 else 0).
Proof.
  destruct (close_spec s) as (E1&E2&E3&E4&d&Hd&Hq).
  destruct (close_spec (close s)) as (_&_&_&_&d'&Hd'&Hq').
  cbv zeta in *.
  replace (drained (close s)) with (drained s) in Hd'
    by (unfold drained; by rewrite E1, E2, E3).
  split.
  - rewrite (since_app _ _ _ Hd), close_notifications_app,
      (quiet_no_notification d Hq). by case_match.
  - rewrite Hd, <- !app_assoc in Hd'.
    rewrite (since_app _ _ _ Hd'), !close_notifications_app,
      (quiet_no_notification d Hq), (quiet_no_notification d' Hq').
    by case_match.
Qed.
End draining.

(** ** Close completions *)

Section close_completion.
Context `{!Protocol} {C : Type} `{!ClientConnection C}.
Implicit Types (s : State C) (c : ConnPtr) (r : ReqPtr).

Lemma on_connection_close_spec c s :
  let s' := on_connection_close c s in
  connections_ s' = list_remove c (connections_ s)
  ∧ connections_pending_ s' = connections_pending_ s
  ∧ pending_request_queue_ s' = pending_request_queue_ s
  ∧ is_closing_ s' = is_closing_ s || is_defunct (deref s c)
  ∧ ∃ d, trace s' =
           trace s ++ d
           ++ (if is_closing_ s' && drained s' then [EvCloseCallback] else [])
         ∧ Forall quiet d
         ∧ (∀ c', EvConnectionClose c' ∈ d →
              is_closing_ s' = true ∧ c' ∈ connections_ s'
              ∧ is_closing (deref s c') = false)
         ∧ (∀ c', is_closing_ s' = true → c' ∈ connections_ s' →
              is_closing (deref s c') = false → EvConnectionClose c' ∈ d).
Proof.
  unfold on_connection_close. cbv zeta.
  remember (if is_defunct (deref (set_connections (list_remove c (connections_ s)) s) c)
            then set_is_closing true (set_connections (list_remove c (connections_ s)) s)
            else set_connections (list_remove c (connections_ s)) s) as s1 eqn:Hs1.
  assert (connections_ s1 = list_remove c (connections_ s)
          ∧ connections_pending_ s1 = connections_pending_ s
          ∧ pending_request_queue_ s1 = pending_request_queue_ s
          ∧ is_closing_ s1 = is_closing_ s || is_defunct (deref s c)
          ∧ trace s1 = trace s
          ∧ objects s1 = objects s) as (E1&E2&E3&E4&E5&E6).
  { subst s1. change (deref (set_connections _ s) c) with (deref s c).
    destruct (is_defunct (deref s c)); cbn;
      rewrite ?orb_true_r, ?orb_false_r; done. }
  clear Hs1.
  assert (Hderef : ∀ c', deref s1 c' = deref s c')
    by (intros; unfold deref; by rewrite E6).
  destruct (maybe_close_spec s1) as (F1&F2&F3&F4&d&Hd&Hq&Hin&Hout).
  cbv zeta in *.
  assert (Hdr : drained (maybe_close s1) = drained s1)
    by (unfold drained; by rewrite F1, F2, F3).
  rewrite F1, F2, F3, F4, E1, E2, E3, E4. split_and!; try done.
  exists d. split_and!.
  - by rewrite Hd, E5, Hdr, E4.
  - done.
  - intros c' Hc'. destruct (Hin c' Hc') as (?&?&?).
    rewrite <- E1, <- E4, <- Hderef. done.
  - intros c' ? ? ?. apply Hout; rewrite ?E1, ?E4, ?Hderef; done.
Qed.
End close_completion.

(** ** How the operations move the three lists *)

Section lists.
Context `{!Protocol} {C : Type} `{!ClientConnection C}.
Variable config_ : Config.
Implicit Types (s : State C) (c : ConnPtr) (r : ReqPtr) (h : PoolHandler).

Lemma spawn_connection_spec s :
  let s' := spawn_connection s in
  connections_ s' = connections_ s
  ∧ pending_request_queue_ s' = pending_request_queue_ s
  ∧ is_closing_ s' = is_closing_ s
  ∧ connections_pending_ s' =
      (if is_closing_ s then connections_pending_ s
       else connections_pending_ s ++ [next_object s]).
Proof. unfold spawn_connection. by destruct (is_closing_ s) eqn:E. Qed.

(** The [for] loop of the constructor and of [borrow_connection]. *)
Lemma spawn_connections_spec n s :
  let s' := Nat.iter n spawn_connection s in
  connections_ s' = connections_ s
  ∧ pending_request_queue_ s' = pending_request_queue_ s
  ∧ is_closing_ s' = is_closing_ s
  ∧ length (connections_pending_ s') =
      (if is_closing_ s then length (connections_pending_ s)
       else length (connections_pending_ s) + n).
Proof.
  induction n as [|n IH].
  - cbn. split_and!; try done. case_match; lia.
  - change (Nat.iter (S n) spawn_connection s)
      with (spawn_connection (Nat.iter n spawn_connection s)).
    destruct IH as (E1&E2&E3&E4).
    destruct (spawn_connection_spec (Nat.iter n spawn_connection s))
      as (F1&F2&F3&F4).
    cbv zeta in *. rewrite F1, F2, F3, F4, E1, E2, E3.
    split_and!; try done.
    destruct (is_closing_ s); [done|]. rewrite length_app, E4. cbn. lia.
Qed.

Lemma Pool_new_spec :
  let s : State C := Pool_new config_ in
  connections_ s = []
  ∧ pending_request_queue_ s = []
  ∧ is_closing_ s = false
  ∧ length (connections_pending_ s) = core_connections_per_host config_.
Proof.
  destruct (spawn_connections_spec (core_connections_per_host config_)
              Pool_members) as (?&?&?&?).
  done.
Qed.

Lemma maybe_spawn_connection_spec s :
  let s' := maybe_spawn_connection config_ s in
  connections_ s' = connections_ s
  ∧ pending_request_queue_ s' = pending_request_queue_ s
  ∧ is_closing_ s' = is_closing_ s
  ∧ (connections_pending_ s' = connections_pending_ s
     ∨ length (connections_pending_ s') = S (length (connections_pending_ s))
       ∧ length (connections_pending_ s) < max_simultaneous_creation config_
       ∧ length (connections_ s) + length (connections_pending_ s)
         < max_connections_per_host config_).
Proof.
  unfold maybe_spawn_connection.
  destruct (Nat.leb_spec (max_simultaneous_creation config_)
              (length (connections_pending_ s))); [by split_and!; try left|].
  destruct (Nat.leb_spec (max_connections_per_host config_)
              (length (connections_ s) + length (connections_pending_ s)));
    [by split_and!; try left|].
  destruct (spawn_connection_spec s) as (E1&E2&E3&E4). cbv zeta in *.
  split_and!; try done. rewrite E4. destruct (is_closing_ s); [by left|].
  right. rewrite length_app. cbn. lia.
Qed.

(** [borrow_connection] never reaches the dereference of [end()]: it only
    calls [find_least_busy] on a non-empty list. *)
Lemma borrow_connection_defined s :
  ∃ result, (borrow_connection config_ s).1 = Done result.
Proof.
  unfold borrow_connection. destruct (is_closing_ s); [by eexists|].
  destruct (connections_ s) as [|c l] eqn:Hl; [by eexists|]. cbn.
  destruct (maybe_spawn_connection_spec s) as (E1&_).
  destruct (find_least_busy_nonempty (maybe_spawn_connection config_ s))
    as (m&_&_&->); [|by eexists].
  cbv zeta in E1. by rewrite E1, Hl.
Qed.

Lemma borrow_connection_spec s :
  let s' := (borrow_connection config_ s).2 in
  connections_ s' = connections_ s
  ∧ pending_request_queue_ s' = pending_request_queue_ s
  ∧ is_closing_ s' = is_closing_ s
  ∧ (if is_closing_ s then connections_pending_ s' = connections_pending_ s
     else if list_empty (connections_ s) then
       length (connections_pending_ s')
       = length (connections_pending_ s) + core_connections_per_host config_
     else
       connections_pending_ s' = connections_pending_ s
       ∨ length (connections_pending_ s') = S (length (connections_pending_ s))
         ∧ length (connections_pending_ s) < max_simultaneous_creation config_
         ∧ length (connections_ s) + length (connections_pending_ s)
           < max_connections_per_host config_).
Proof.
  unfold borrow_connection. destruct (is_closing_ s) eqn:Hc; [done|].
  destruct (list_empty (connections_ s)) eqn:He; cbn [snd].
  - destruct (spawn_connections_spec (core_connections_per_host config_) s)
      as (?&?&?&E).
    cbv zeta in *. rewrite Hc in E. split_and!; congruence.
  - destruct (maybe_spawn_connection_spec s) as (?&?&?&?). cbv zeta in *.
    split_and!; congruence.
Qed.

Lemma on_connection_connect_spec c s :
  c ∈ connections_pending_ s →
  let s' := on_connection_connect c s in
  length (connections_pending_ s') < length (connections_pending_ s)
  ∧ length (connections_ s') ≤ S (length (connections_ s))
  ∧ length (connections_ s') + length (connections_pending_ s')
    ≤ length (connections_ s) + length (connections_pending_ s)
  ∧ length (pending_request_queue_ s') ≤ length (pending_request_queue_ s)
  ∧ is_closing_ s' = is_closing_ s.
Proof.
  intros Hin.
  assert (Hlt : length (list_remove c (connections_pending_ s))
                < length (connections_pending_ s)).
  { unfold list_remove. eapply length_filter_lt; [exact Hin|]. by intros []. }
  unfold on_connection_connect. cbv zeta.
  set (s1 := set_connections_pending _ _).
  assert (connections_ s1 = connections_ s
          ∧ connections_pending_ s1 = list_remove c (connections_pending_ s)
          ∧ pending_request_queue_ s1 = pending_request_queue_ s
          ∧ is_closing_ s1 = is_closing_ s) as (E1&E2&E3&E4) by done.
  clearbody s1. rewrite <- E1, <- E3, <- E4. rewrite <- E2 in Hlt.
  destruct (is_closing_ s1) eqn:Hc; [split_and!; cbn; try done; lia|].
  destruct (is_ready (deref s1 c)); [|split_and!; try done; lia].
  destruct (execute_pending_request_pool c
              (set_connections (connections_ s1 ++ [c]) s1)) as (F1&F2&F3&F4).
  cbv zeta in *. rewrite F1, F2, F3. cbn in *. rewrite length_app. cbn.
  split_and!; try done; lia.
Qed.

Lemma through_request_handler_pool h call s s' :
  through_request_handler h call s = Done s' →
  connections_ s' = connections_ s
  ∧ connections_pending_ s' = connections_pending_ s
  ∧ is_closing_ s' = is_closing_ s
  ∧ pending_request_queue_ s' = pending_request_queue_ s.
Proof.
  unfold through_request_handler. destruct (request_handler_ h); [|done].
  by intros [= <-].
Qed.

Lemma router_frame_finish h s0 s :
  connections_ s0 = connections_ s
  ∧ connections_pending_ s0 = connections_pending_ s
  ∧ is_closing_ s0 = is_closing_ s
  ∧ pending_request_queue_ s0 = pending_request_queue_ s →
  router_frame s (PoolHandler_finish_request h s0).
Proof.
  intros (E1&E2&E3&E4).
  destruct (finish_request_pool h s0) as (F1&F2&F3&F4). cbv zeta in *.
  unfold router_frame. by rewrite F1, F2, F3, <- E1, <- E2, <- E3, <- E4.
Qed.

Lemma PoolHandler_on_set_pool h response s h' s' :
  PoolHandler_on_set h response s = Done (h', s') → router_frame s s'.
Proof.
  unfold PoolHandler_on_set, PoolHandler_on_error_response.
  repeat case_decide.
  - destruct (through_request_handler _ _ _) as [s1|] eqn:E; [|done].
    cbn. intros [= <- <-]. apply router_frame_finish.
    by apply through_request_handler_pool in E.
  - pose proof (Connection_execute_pool (connection_ h)
                  (new_PrepareHandler (request_handler_ h)) s) as Hp.
    destruct (Connection_execute _ _ _) as [b s1]. cbn.
    intros [= <- <-]. apply router_frame_finish. cbn in Hp. tauto.
  - destruct (through_request_handler _ _ _) as [s1|] eqn:E; [|done].
    cbn. intros [= <- <-]. apply router_frame_finish.
    by apply through_request_handler_pool in E.
  - destruct (through_request_handler _ _ _) as [s1|] eqn:E; [|done].
    cbn. intros [= <- <-]. apply router_frame_finish.
    by apply through_request_handler_pool in E.
Qed.

Lemma PoolHandler_on_error_pool h code message s h' s' :
  PoolHandler_on_error h code message s = Done (h', s') → router_frame s s'.
Proof.
  unfold PoolHandler_on_error. case_decide; cbn.
  - intros [= <- <-]. by apply router_frame_finish.
  - destruct (through_request_handler _ _ _) as [s1|] eqn:E; [|done].
    cbn. intros [= <- <-]. apply router_frame_finish.
    by apply through_request_handler_pool in E.
Qed.

Lemma PoolHandler_on_timeout_pool h s h' s' :
  PoolHandler_on_timeout h s = Done (h', s') → router_frame s s'.
Proof.
  unfold PoolHandler_on_timeout.
  destruct (through_request_handler _ _ _) as [s1|] eqn:E; [|done].
  cbn. intros [= <- <-]. apply router_frame_finish.
  by apply through_request_handler_pool in E.
Qed.
End lists.

(** ** Invariants of the event loop *)

Section invariants.
Context `{!Protocol} {C : Type} `{!ClientConnection C}.
Variable config_ : Config.
Implicit Types (s : State C) (c : ConnPtr) (r : ReqPtr) (op : Op C).

Lemma on_timeout_spec r s :
  let s' := on_timeout r s in
  connections_ s' = connections_ s
  ∧ connections_pending_ s' = connections_pending_ s
  ∧ pending_request_queue_ s' = list_remove r (pending_request_queue_ s)
  ∧ is_closing_ s' = is_closing_ s.
Proof.
  unfold on_timeout. cbv zeta.
  match goal with |- context [maybe_close ?s1] =>
    destruct (maybe_close_spec s1) as (F1&F2&F3&F4&_)
  end.
  cbv zeta in *. by rewrite F1, F2, F3, F4.
Qed.

Lemma wait_for_connection_pool r s :
  let s' := (wait_for_connection config_ r s).2 in
  connections_ s' = connections_ s
  ∧ connections_pending_ s' = connections_pending_ s
  ∧ is_closing_ s' = is_closing_ s
  ∧ (length (pending_request_queue_ s) ≤ max_pending_requests config_ →
     length (pending_request_queue_ s') ≤ max_pending_requests config_).
Proof.
  cbv zeta. unfold wait_for_connection.
  destruct (is_closing_ s) eqn:Hc; cbn [orb snd]; [by rewrite Hc|].
  destruct (Nat.ltb_spec (max_pending_requests config_)
              (length (pending_request_queue_ s) + 1)); cbn [snd];
    [by rewrite Hc|].
  split_and!; try done. cbn. rewrite length_app. cbn. lia.
Qed.

Lemma length_list_empty {A} (l : list A) : list_empty l = true → length l = 0.
Proof. by destruct l. Qed.

(** What one operation of the event loop does to the lengths of the three
    lists and to the pool state. *)
Lemma apply_op_lists op s s' :
  enabled op s = true →
  apply_op config_ op s = Done s' →
  (queue_bounded config_ s → queue_bounded config_ s')
  ∧ (is_closing_ s = true → is_closing_ s' = true)
  ∧ (repopulates op s = false →
       (creation_bounded config_ s → creation_bounded config_ s')
       ∧ (connections_bounded config_ s → connections_bounded config_ s')).
Proof.
  unfold queue_bounded, creation_bounded, connections_bounded.
  intros Hen Hop. destruct op; cbn in Hop, Hen.
  - (* borrow_connection *)
    destruct (borrow_connection_defined config_ s) as [res Hres].
    pose proof (borrow_connection_spec config_ s) as (E1&E2&E3&E4).
    destruct (borrow_connection config_ s) as [o s1]. cbn in *. subst o.
    injection Hop as ->. rewrite E1, E2, E3. split_and!; try done.
    cbn. intros Hrep. destruct (is_closing_ s); [by rewrite E4|].
    destruct (list_empty (connections_ s)) eqn:He.
    + cbn in Hrep. apply negb_false_iff, length_list_empty in Hrep.
      apply length_list_empty in He. rewrite E4, He, Hrep. lia.
    + destruct E4 as [->|(->&?&?)]; lia.
  - (* execute *)
    injection Hop as <-.
    destruct (Connection_execute_pool c (new_PoolHandler c r) s)
      as (E1&E2&E3&E4&_).
    unfold execute. cbv zeta in *. by rewrite E1, E2, E3, E4.
  - (* wait_for_connection *)
    injection Hop as <-.
    destruct (wait_for_connection_pool r s) as (E1&E2&E3&E4).
    cbv zeta in *. by rewrite E1, E2, E3.
  - (* close *)
    injection Hop as <-. destruct (close_spec s) as (E1&E2&E3&E4&_).
    cbv zeta in *. by rewrite E1, E2, E3, E4.
  - (* on_connection_connect *)
    injection Hop as <-. apply bool_decide_eq_true in Hen.
    destruct (on_connection_connect_spec c s Hen) as (E1&E2&E3&E4&E5).
    cbv zeta in *. rewrite E5. split_and!; try done; lia.
  - (* on_connection_close *)
    injection Hop as <-.
    destruct (on_connection_close_spec c s) as (E1&E2&E3&E4&_).
    cbv zeta in *. rewrite E1, E2, E3, E4.
    pose proof (length_filter (λ y, y ≠ c) (connections_ s)).
    unfold list_remove. split_and!; try done; try lia.
    by intros ->.
  - (* on_timeout *)
    injection Hop as <-. destruct (on_timeout_spec r s) as (E1&E2&E3&E4).
    cbv zeta in *. rewrite E1, E2, E3, E4.
    pose proof (length_filter (λ y, y ≠ r) (pending_request_queue_ s)).
    unfold list_remove. split_and!; try done; lia.
  - (* PoolHandler::on_set *)
    destruct (PoolHandler_on_set h response s) as [[h' s1]|] eqn:E; [|done].
    injection Hop as <-. apply PoolHandler_on_set_pool in E as (E1&E2&E3&E4).
    rewrite E1, E2, E3. split_and!; try done; lia.
  - (* PoolHandler::on_error *)
    destruct (PoolHandler_on_error h code message s) as [[h' s1]|] eqn:E;
      [|done].
    injection Hop as <-. apply PoolHandler_on_error_pool in E as (E1&E2&E3&E4).
    rewrite E1, E2, E3. split_and!; try done; lia.
  - (* PoolHandler::on_timeout *)
    destruct (PoolHandler_on_timeout h s) as [[h' s1]|] eqn:E; [|done].
    injection Hop as <-. apply PoolHandler_on_timeout_pool in E as (E1&E2&E3&E4).
    rewrite E1, E2, E3. split_and!; try done; lia.
  - (* the connection moves on *)
    by injection Hop as <-.
Qed.

(** A property that every enabled and allowed operation preserves holds
    along every run. *)
Lemma run_invariant (allowed : Op C → State C → bool) (Inv : State C → Prop) :
  (∀ op s s', enabled op s = true → allowed op s = true →
              apply_op config_ op s = Done s' → Inv s → Inv s') →
  ∀ ops s s', run config_ allowed ops s = Some s' → Inv s → Inv s'.
Proof.
  intros Hstep ops. induction ops as [|op ops IH]; intros s s' Hrun Hs.
  - by injection Hrun as <-.
  - cbn in Hrun.
    destruct (enabled op s) eqn:Hen; [|done].
    destruct (allowed op s) eqn:Hal; [|done]. cbn in Hrun.
    destruct (apply_op config_ op s) as [s1|] eqn:Hop; [|done].
    eapply IH; [exact Hrun|]. by eapply Hstep.
Qed.

(** X18: admission keeps the queue within [max_pending_requests] in every
    state the event loop reaches from construction. *)
Lemma run_queue_bounded ops s :
  run config_ any_op ops (Pool_new config_) = Some s → queue_bounded config_ s.
Proof.
  intros Hrun. eapply (run_invariant any_op (queue_bounded config_)); [|exact Hrun|].
  - intros op s1 s2 Hen _ Hop. by apply (apply_op_lists op s1 s2 Hen Hop).
  - unfold queue_bounded. destruct (Pool_new_spec (C := C) config_) as (_&->&_).
    cbn. lia.
Qed.

(** X19: the pool state only moves from open to closing: no sequence of
    operations of the event loop reopens a closing pool. *)
Lemma run_closing_forward ops s s' :
  run config_ any_op ops s = Some s' → is_closing_ s = true → is_closing_ s' = true.
Proof.
  apply (run_invariant any_op (λ s, is_closing_ s = true)).
  intros op s1 s2 Hen _ Hop. by apply (apply_op_lists op s1 s2 Hen Hop).
Qed.

(** X20: in every run of the event loop in which [borrow_connection] does
    not find the ready list empty while sockets are still connecting, ready
    plus connecting connections stay within the larger of
    [core_connections_per_host] and [max_connections_per_host]. *)
Lemma run_connections_bounded ops s :
  run config_ no_repopulation ops (Pool_new config_) = Some s →
  connections_bounded config_ s.
Proof.
  intros Hrun.
  eapply (run_invariant no_repopulation (connections_bounded config_)); [|exact Hrun|].
  - intros op s1 s2 Hen Hal Hop.
    apply negb_true_iff in Hal.
    by apply (apply_op_lists op s1 s2 Hen Hop).
  - unfold connections_bounded.
    destruct (Pool_new_spec (C := C) config_) as (->&_&_&->). cbn. lia.
Qed.

(** C2, as the source has it.  The constructor starts
    [core_connections_per_host] connects at once and
    [maybe_spawn_connection] adds one only below
    [max_simultaneous_creation]: in every run of the event loop in which
    [borrow_connection] does not find the ready list empty while sockets
    are still connecting, the connecting sockets never number more than the
    larger of [core_connections_per_host] and [max_simultaneous_creation]. *)
Theorem run_creation_bounded ops s :
  run config_ no_repopulation ops (Pool_new config_) = Some s →
  length (connections_pending_ s)
  ≤ core_connections_per_host config_ `max` max_simultaneous_creation config_.
Proof.
  intros Hrun.
  eapply (run_invariant no_repopulation (creation_bounded config_)); [|exact Hrun|].
  - intros op s1 s2 Hen Hal Hop.
    apply negb_true_iff in Hal.
    by apply (apply_op_lists op s1 s2 Hen Hop).
  - unfold creation_bounded.
    destruct (Pool_new_spec (C := C) config_) as (_&_&_&->). lia.
Qed.
End invariants.

(** ** When the owner is notified *)

Section notification.
Context `{!Protocol} {C : Type} `{!ClientConnection C}.
Variable config_ : Config.
Implicit Types (s : State C) (c : ConnPtr) (r : ReqPtr) (h : PoolHandler).

Lemma silent_same s s' : trace s' = trace s → silent_step s s'.
Proof.
  intros E. exists []. rewrite app_nil_r. split; [done|]. apply not_elem_of_nil.
Qed.

Lemma silent_emit e s s' :
  trace s' = trace s ++ [e] → e ≠ EvCloseCallback → silent_step s s'.
Proof.
  intros E Hne. exists [e]. split; [done|].
  intros Hin%list_elem_of_singleton. by subst.
Qed.

Lemma silent_trans s1 s2 s3 :
  silent_step s1 s2 → silent_step s2 s3 → silent_step s1 s3.
Proof.
  intros (d1&E1&H1) (d2&E2&H2). exists (d1 ++ d2). split.
  - by rewrite E2, E1, <- app_assoc.
  - by intros [?|?]%elem_of_app.
Qed.

Lemma silent_quiet s s' d :
  trace s' = trace s ++ d → Forall quiet d → silent_step s s'.
Proof.
  intros E Hq. exists d. split; [done|]. intros Hin.
  rewrite Forall_forall in Hq. by destruct (Hq _ Hin).
Qed.

Lemma silent_notifies s s' : silent_step s s' → notifies_only_drained s s'.
Proof. intros (d&E&Hd). exists d. by split. Qed.

Lemma silent_then_notifies s1 s2 s3 :
  silent_step s1 s2 → notifies_only_drained s2 s3 → notifies_only_drained s1 s3.
Proof.
  intros (d1&E1&H1) (d2&E2&H2). exists (d1 ++ d2). split.
  - by rewrite E2, E1, <- app_assoc.
  - intros [?|?]%elem_of_app; [done|by apply H2].
Qed.

Lemma maybe_close_notifies s : notifies_only_drained s (maybe_close s).
Proof.
  destruct (maybe_close_spec s) as (E1&E2&E3&E4&d&Hd&Hq&_). cbv zeta in *.
  eexists. split; [exact Hd|]. intros [Hin|Hin]%elem_of_app.
  - rewrite Forall_forall in Hq. by destruct (Hq _ Hin).
  - unfold drained. rewrite E1, E2, E3, E4. fold (drained s).
    destruct (is_closing_ s); [|by apply elem_of_nil in Hin].
    destruct (drained s); [done|by apply elem_of_nil in Hin].
Qed.

Lemma spawn_connection_silent s : silent_step s (spawn_connection s).
Proof.
  unfold spawn_connection. destruct (is_closing_ s); [by apply silent_same|].
  by eapply silent_emit.
Qed.

Lemma spawn_connections_silent n s :
  silent_step s (Nat.iter n spawn_connection s).
Proof.
  induction n as [|n IH]; [by apply silent_same|].
  change (Nat.iter (S n) spawn_connection s)
    with (spawn_connection (Nat.iter n spawn_connection s)).
  eapply silent_trans; [exact IH|apply spawn_connection_silent].
Qed.

Lemma borrow_connection_silent s :
  silent_step s (borrow_connection config_ s).2.
Proof.
  unfold borrow_connection. destruct (is_closing_ s); [by apply silent_same|].
  destruct (list_empty (connections_ s)); cbn [snd].
  - apply spawn_connections_silent.
  - unfold maybe_spawn_connection.
    repeat case_match; try by apply silent_same.
    apply spawn_connection_silent.
Qed.

Lemma execute_silent c r s : silent_step s (execute c r s).2.
Proof.
  eapply silent_emit; [apply Connection_execute_trace|done].
Qed.

Lemma wait_for_connection_silent r s :
  silent_step s (wait_for_connection config_ r s).2.
Proof.
  unfold wait_for_connection. case_match; [by apply silent_same|].
  by eapply silent_emit.
Qed.

Lemma execute_pending_request_silent c s :
  silent_step s (execute_pending_request c s).
Proof.
  destruct (execute_pending_request_quiet c s) as (d&E&Hq).
  by eapply silent_quiet.
Qed.

Lemma finish_request_silent h s : silent_step s (PoolHandler_finish_request h s).
Proof.
  destruct (finish_request_quiet h s) as (d&E&Hq). by eapply silent_quiet.
Qed.

Lemma on_connection_connect_silent c s :
  silent_step s (on_connection_connect c s).
Proof.
  unfold on_connection_connect. cbv zeta.
  set (s1 := set_connections_pending _ _).
  assert (silent_step s s1) as H1 by (by eapply silent_emit).
  clearbody s1. eapply silent_trans; [exact H1|].
  destruct (is_closing_ s1); [by eapply silent_emit|].
  destruct (is_ready (deref s1 c)); [|by apply silent_same].
  eapply silent_trans; [|apply execute_pending_request_silent].
  by apply silent_same.
Qed.

Lemma through_request_handler_silent h call s s' :
  through_request_handler h call s = Done s' →
  (∀ r, call r ≠ EvCloseCallback) → silent_step s s'.
Proof.
  unfold through_request_handler.
  destruct (request_handler_ h) as [r|]; [|done].
  intros [= <-] Hcall. by eapply silent_emit.
Qed.

Lemma PoolHandler_on_set_silent h response s h' s' :
  PoolHandler_on_set h response s = Done (h', s') → silent_step s s'.
Proof.
  unfold PoolHandler_on_set, PoolHandler_on_error_response.
  repeat case_decide.
  - destruct (through_request_handler _ _ _) as [s1|] eqn:E; [|done].
    cbn. intros [= <- <-].
    eapply silent_trans; [|apply finish_request_silent].
    by eapply through_request_handler_silent.
  - pose proof (Connection_execute_trace (connection_ h)
                  (new_PrepareHandler (request_handler_ h)) s) as Ht.
    destruct (Connection_execute _ _ _) as [b s1]. cbn.
    intros [= <- <-].
    eapply silent_trans; [|apply finish_request_silent].
    by eapply silent_emit.
  - destruct (through_request_handler _ _ _) as [s1|] eqn:E; [|done].
    cbn. intros [= <- <-].
    eapply silent_trans; [|apply finish_request_silent].
    by eapply through_request_handler_silent.
  - destruct (through_request_handler _ _ _) as [s1|] eqn:E; [|done].
    cbn. intros [= <- <-].
    eapply silent_trans; [|apply finish_request_silent].
    eapply silent_trans; [by eapply through_request_handler_silent|].
    by eapply silent_emit.
Qed.

Lemma PoolHandler_on_error_silent h code message s h' s' :
  PoolHandler_on_error h code message s = Done (h', s') → silent_step s s'.
Proof.
  unfold PoolHandler_on_error. case_decide; cbn.
  - intros [= <- <-].
    eapply silent_trans; [|apply finish_request_silent]. by eapply silent_emit.
  - destruct (through_request_handler _ _ _) as [s1|] eqn:E; [|done].
    cbn. intros [= <- <-].
    eapply silent_trans; [|apply finish_request_silent].
    by eapply through_request_handler_silent.
Qed.

Lemma PoolHandler_on_timeout_silent h s h' s' :
  PoolHandler_on_timeout h s = Done (h', s') → silent_step s s'.
Proof.
  unfold PoolHandler_on_timeout.
  destruct (through_request_handler _ _ _) as [s1|] eqn:E; [|done].
  cbn. intros [= <- <-].
  eapply silent_trans; [|apply finish_request_silent].
  by eapply through_request_handler_silent.
Qed.

Lemma close_notifies s : notifies_only_drained s (close s).
Proof.
  unfold close. cbv zeta.
  eapply silent_then_notifies; [|apply maybe_close_notifies].
  destruct (close_all_connections (connections_ (set_is_closing true s))
              (set_is_closing true s)) as (_&_&_&_&Hd).
  eapply silent_quiet; [exact Hd|apply Forall_quiet_close].
Qed.

Lemma on_connection_close_notifies c s :
  notifies_only_drained s (on_connection_close c s).
Proof.
  unfold on_connection_close. cbv zeta.
  eapply silent_then_notifies; [|apply maybe_close_notifies].
  apply silent_same. by case_match.
Qed.

Lemma on_timeout_notifies r s : notifies_only_drained s (on_timeout r s).
Proof.
  unfold on_timeout. cbv zeta.
  eapply silent_then_notifies; [|apply maybe_close_notifies].
  by eapply silent_emit.
Qed.

(** Whatever the event loop does, the owner is notified only by a step that
    leaves the pool closing with no ready connection, no connecting socket and
    no queued request. *)
Lemma apply_op_notifies (op : Op C) s s' :
  apply_op config_ op s = Done s' → notifies_only_drained s s'.
Proof.
  intros Hop. destruct op; cbn in Hop.
  - pose proof (borrow_connection_silent s) as Hs.
    destruct (borrow_connection config_ s) as [[o|] s1]; [|done].
    injection Hop as <-. by apply silent_notifies.
  - injection Hop as <-. apply silent_notifies, execute_silent.
  - injection Hop as <-. apply silent_notifies, wait_for_connection_silent.
  - injection Hop as <-. apply close_notifies.
  - injection Hop as <-. apply silent_notifies, on_connection_connect_silent.
  - injection Hop as <-. apply on_connection_close_notifies.
  - injection Hop as <-. apply on_timeout_notifies.
  - destruct (PoolHandler_on_set h response s) as [[h' s1]|] eqn:E; [|done].
    injection Hop as <-. eapply silent_notifies, PoolHandler_on_set_silent, E.
  - destruct (PoolHandler_on_error h code message s) as [[h' s1]|] eqn:E;
      [|done].
    injection Hop as <-. eapply silent_notifies, PoolHandler_on_error_silent, E.
  - destruct (PoolHandler_on_timeout h s) as [[h' s1]|] eqn:E; [|done].
    injection Hop as <-. eapply silent_notifies, PoolHandler_on_timeout_silent, E.
  - injection Hop as <-. apply silent_notifies. by apply silent_same.
Qed.

Lemma notified_only_drained s s' :
  notifies_only_drained s s' → EvCloseCallback ∈ since s s' →
  is_closing_ s' = true ∧ drained s' = true.
Proof. intros (d&E&Hd). by rewrite (since_app _ _ _ E). Qed.

(** C8, as the source has it.  When a connection that is defunct completes
    its close, the pool becomes closing, the connection leaves the ready
    list, every connection that stays in the ready list and is not closing
    yet is told to close (and no other is), and [close_callback_] is called
    once by this completion if the ready list, the connecting list and the
    request queue are then all empty and not at all otherwise.  No operation
    of the event loop ever calls [close_callback_] before the pool is closing
    and the three are empty; nothing limits the calls to one. *)
Theorem defunct_close_completion_drains c s :
  is_defunct (deref s c) = true →
  let s' := on_connection_close c s in
  is_closing_ s' = true
  ∧ connections_ s' = list_remove c (connections_ s)
  ∧ (∀ c', c' ∈ connections_ s' → is_closing (deref s c') = false →
       EvConnectionClose c' ∈ since s s')
  ∧ (∀ c', EvConnectionClose c' ∈ since s s' →
       c' ∈ connections_ s' ∧ is_closing (deref s c') = false)
  ∧ close_notifications (since s s') = (if drained s' then 1 else 0)
  ∧ (∀ (op : Op C) s1 s2,
       apply_op config_ op s1 = Done s2 →
       EvCloseCallback ∈ since s1 s2 →
       is_closing_ s2 = true ∧ drained s2 = true).
Proof.
  intros Hdef.
  destruct (on_connection_close_spec c s) as (E1&E2&E3&E4&d&Hd&Hq&Hin&Hout).
  cbv zeta in *. rewrite Hdef, orb_true_r in E4.
  split_and!; [done|done| | | |].
  - intros c' Hc' Hn. rewrite (since_app _ _ _ Hd).
    apply elem_of_app. left. by apply Hout.
  - intros c' Hc'. rewrite (since_app _ _ _ Hd) in Hc'.
    apply elem_of_app in Hc' as [Hc'|Hc'].
    + by destruct (Hin c' Hc') as (_&?&?).
    + exfalso. case_match; [|by apply elem_of_nil in Hc'].
      apply list_elem_of_singleton in Hc'. done.
  - rewrite (since_app _ _ _ Hd), close_notifications_app,
      (quiet_no_notification d Hq), E4. cbn [andb].
    by destruct (drained (on_connection_close c s)).
  - intros op s1 s2 Hop. apply notified_only_drained.
    by apply (apply_op_notifies op).
Qed.
End notification.

(** ** Concrete runs *)

(** C1: a pool of at most one connection is constructed and, before its
    first socket has connected, asked for a connection.  The ready list is
    empty, so [borrow_connection] runs the initial-population loop again,
    without the checks of [maybe_spawn_connection]: two sockets are now
    connecting although [max_connections_per_host] is one. *)
Theorem borrow_connection_exceeds_max_connections :
  let s : State Connection :=
    (borrow_connection config_1_1_1 (Pool_new config_1_1_1)).2 in
  connections_ s = []
  ∧ connections_pending_ s = [0; 1]
  ∧ max_connections_per_host config_1_1_1 = 1
  ∧ ¬ (length (connections_ s) + length (connections_pending_ s)
       ≤ max_connections_per_host config_1_1_1).
Proof. cbv zeta. split_and!; [done|done|done|]. vm_compute. lia. Qed.

(** The same loop run [n] times before any connect completes leaves
    [(n + 1) * core_connections_per_host] sockets connecting. *)
Lemma borrow_connection_repopulates (config_ : Config) (n : nat) :
  let s : State Connection :=
    Nat.iter n (λ s, (borrow_connection config_ s).2) (Pool_new config_) in
  connections_ s = [] ∧ is_closing_ s = false
  ∧ length (connections_pending_ s) = S n * core_connections_per_host config_.
Proof.
  induction n as [|n IH].
  - destruct (Pool_new_spec (C := Connection) config_) as (?&?&?&?).
    cbv zeta. change (Nat.iter 0 ?f ?x) with x. split_and!; try done. lia.
  - cbv zeta in *. destruct IH as (E1&E2&E3).
    change (Nat.iter (S n) ?f ?x) with (f (Nat.iter n f x)).
    destruct (borrow_connection_spec config_
                (Nat.iter n (λ s, (borrow_connection config_ s).2)
                   (Pool_new config_))) as (F1&_&F3&F4).
    cbv zeta in *. rewrite E2, E1 in F4. cbn in F4.
    rewrite F1, F3, F4, E3. split_and!; try done. lia.
Qed.

(** C2 fails at construction: two core connections are started at once
    although [max_simultaneous_creation] is one. *)
Lemma constructor_exceeds_max_simultaneous_creation :
  connections_pending_ (Pool_new (C := Connection) config_2_2_1) = [0; 1]
  ∧ ¬ (length (connections_pending_ (Pool_new (C := Connection) config_2_2_1))
       ≤ max_simultaneous_creation config_2_2_1).
Proof. split; [done|]. vm_compute. lia. Qed.

(** The first socket connects, the next two [borrow_connection] calls
    find it ready: the first starts one more connect, the second finds a
    connect in flight and starts none. *)
Lemma run_creation_bounded_witness :
  ∃ s : State Connection,
    run config_1_3_1 no_repopulation
      [op_connection_moves 0 (ready_with 128); op_on_connection_connect 0;
       op_borrow_connection; op_borrow_connection]
      (Pool_new config_1_3_1) = Some s
    ∧ connections_ s = [0] ∧ connections_pending_ s = [1]
    ∧ length (connections_pending_ s) ≤ 1.
Proof.
  eexists. split; [vm_compute; reflexivity|].
  split; [reflexivity|]. split; [reflexivity|].
  apply (run_creation_bounded config_1_3_1
           [op_connection_moves 0 (ready_with 128); op_on_connection_connect 0;
            op_borrow_connection; op_borrow_connection]).
  vm_compute. reflexivity.
Defined.

(** C3 fails on a drained pool.  The only connection of the pool became ready
    and was then closed by the server, which leaves the pool open and empty;
    up to here the owner has not been notified.  Each of the two [close()]
    calls that follow finds the pool drained and calls [close_callback_]. *)
Lemma close_twice_notifies_twice :
  ∃ s0 s : State Connection,
    run config_1_1_1 any_op
      [op_connection_moves 0 (ready_with 128); op_on_connection_connect 0;
       op_connection_moves 0 (closing_with 128); op_on_connection_close 0]
      (Pool_new config_1_1_1) = Some s0
    ∧ is_closing_ s0 = false ∧ drained s0 = true
    ∧ close_notifications (trace s0) = 0
    ∧ s = close (close s0)
    ∧ close_notifications (since s0 s) = 2
    ∧ ¬ (close_notifications (since s0 s) = 1).
Proof.
  eexists _, _. split; [vm_compute; reflexivity|].
  split_and!; [reflexivity|reflexivity|reflexivity|reflexivity
              |vm_compute; reflexivity|vm_compute; discriminate].
Qed.

(** The failed connection completes its close: the pool becomes closing,
    connection 1 is told to close, and the owner is not notified because
    connection 1 is still in the ready list and connection 2 still
    connecting. *)
Lemma defunct_close_completion_drains_witness :
  ∃ s : State Connection,
    run config_3_3_1 any_op one_defunct_of_three (Pool_new config_3_3_1) = Some s
    ∧ is_defunct (deref s 0) = true
    ∧ is_closing_ (on_connection_close 0 s) = true
    ∧ connections_ (on_connection_close 0 s) = [1]
    ∧ EvConnectionClose 1 ∈ since s (on_connection_close 0 s)
    ∧ close_notifications (since s (on_connection_close 0 s)) = 0.
Proof.
  eexists. split; [vm_compute; reflexivity|]. split; [reflexivity|].
  match goal with |- is_closing_ (on_connection_close 0 ?s) = _ ∧ _ =>
    assert (Hdef : is_defunct (deref s 0) = true) by reflexivity;
    destruct (defunct_close_completion_drains config_3_3_1 0 s Hdef)
      as (H1 & H2 & H3 & _ & H5 & _)
  end.
  split; [exact H1|]. split; [exact H2|]. split.
  - apply H3; [|reflexivity]. rewrite H2. vm_compute. apply list_elem_of_here.
  - exact H5.
Defined.

(** C8 fails on the same pool.  After the failed connection 0 has completed
    its close, connection 2 finishes connecting and is closed at once because
    the pool is closing; then the closes of connections 1 and 2 complete.
    Both completions find the pool closing and drained, and both call
    [close_callback_]. *)
Lemma close_notification_fires_twice :
  ∃ s : State Connection,
    run config_3_3_1 any_op
      (one_defunct_of_three
       ++ [op_on_connection_close 0;
           op_connection_moves 2 (ready_with 128); op_on_connection_connect 2;
           op_on_connection_close 1; op_on_connection_close 2])
      (Pool_new config_3_3_1) = Some s
    ∧ trace s =
        [EvConnectionConnect 0; EvConnectionConnect 1; EvConnectionConnect 2;
         EvConnectCallback; EvConnectCallback;
         EvConnectionClose 1;
         EvConnectCallback; EvConnectionClose 2;
         EvCloseCallback; EvCloseCallback]
    ∧ close_notifications (trace s) = 2
    ∧ ¬ (close_notifications (trace s) = 1).
Proof.
  eexists. split; [vm_compute; reflexivity|].
  split_and!; [reflexivity|reflexivity|vm_compute; discriminate].
Qed.

(** Connection 0 has five free streams but is closing; connection 1 is ready
    with three free streams.  [find_least_busy] looks at connection 0 only and
    answers "no connection", and so does [borrow_connection]. *)
Lemma find_least_busy_checks_only_maximum_witness :
  ∃ s : State Connection,
    run config_2_2_1 any_op
      [op_connection_moves 0 (ready_with 5); op_on_connection_connect 0;
       op_connection_moves 1 (ready_with 3); op_on_connection_connect 1;
       op_connection_moves 0 (closing_with 5)]
      (Pool_new config_2_2_1) = Some s
    ∧ connections_ s = [0; 1]
    ∧ is_ready (deref s 1) = true ∧ available_streams (deref s 1) = 3
    ∧ find_least_busy s = Done None
    ∧ (borrow_connection config_2_2_1 s).1 = Done None.
Proof.
  eexists. split; [vm_compute; reflexivity|].
  split; [reflexivity|]. split; [reflexivity|]. split; [reflexivity|].
  split; [|reflexivity].
  match goal with |- find_least_busy ?s = _ =>
    destruct (find_least_busy_checks_only_maximum s) as (m & Hm & _ & Hnone & _);
      [discriminate|]
  end.
  apply Hnone. left.
  vm_compute in Hm. injection Hm as <-. reflexivity.
Defined.

(** ** Further properties of the member functions *)

Section population.
Context `{!Protocol} {C : Type} `{!ClientConnection C}.
Variable config_ : Config.
Implicit Types (s : State C) (c : ConnPtr) (r : ReqPtr).

Lemma spawn_connection_open s :
  is_closing_ s = false →
  let s' := spawn_connection s in
  connections_pending_ s' = connections_pending_ s ++ [next_object s]
  ∧ next_object s' = S (next_object s)
  ∧ trace s' = trace s ++ [EvConnectionConnect (next_object s)]
  ∧ connections_ s' = connections_ s
  ∧ pending_request_queue_ s' = pending_request_queue_ s
  ∧ is_closing_ s' = false
  ∧ objects s' = <[next_object s := cc_connect cc_new]> (objects s).
Proof.
  intros Hc. unfold spawn_connection. rewrite Hc. cbn.
  split_and!; try done.
  unfold deref. cbn. rewrite lookup_insert_eq. cbn.
  apply insert_insert_eq.
Qed.

(** The [for] loop over [spawn_connection] on an open pool: [n] fresh
    connections, in the order of their creation. *)
Lemma spawn_connections_open n : ∀ s,
  is_closing_ s = false →
  let s' := Nat.iter n spawn_connection s in
  connections_pending_ s' = connections_pending_ s ++ seq (next_object s) n
  ∧ next_object s' = next_object s + n
  ∧ trace s' = trace s ++ (EvConnectionConnect <$> seq (next_object s) n)
  ∧ connections_ s' = connections_ s
  ∧ pending_request_queue_ s' = pending_request_queue_ s
  ∧ is_closing_ s' = false
  ∧ (∀ c, next_object s ≤ c < next_object s + n →
       objects s' !! c = Some (cc_connect cc_new)).
Proof.
  induction n as [|n IH]; intros s Hc.
  - cbn. rewrite !app_nil_r, Nat.add_0_r. split_and!; try done. intros; lia.
  - change (Nat.iter (S n) spawn_connection s)
      with (spawn_connection (Nat.iter n spawn_connection s)).
    destruct (IH s Hc) as (E1&E2&E3&E4&E5&E6&E7). cbv zeta in *.
    destruct (spawn_connection_open _ E6) as (F1&F2&F3&F4&F5&F6&F7).
    cbv zeta in *.
    rewrite F1, F2, F3, F4, F5, F6, F7, E1, E2, E3, E4, E5.
    rewrite seq_S, fmap_app, !app_assoc. cbn.
    split_and!; [done|lia|done|done|done|done|].
    intros c Hrange.
    destruct (decide (c = next_object s + n)) as [->|Hne].
    + apply lookup_insert_eq.
    + rewrite lookup_insert_ne by done. apply E7. lia.
Qed.

(** X1: the constructor leaves exactly [core_connections_per_host] sockets
    connecting, none ready and nothing queued, on an open pool; it has called
    [connect()] once on each of them, in the order of their creation, and
    made no other call. *)
Theorem Pool_new_populates :
  let s : State C := Pool_new config_ in
  connections_pending_ s = seq 0 (core_connections_per_host config_)
  ∧ connections_ s = []
  ∧ pending_request_queue_ s = []
  ∧ is_closing_ s = false
  ∧ trace s = EvConnectionConnect <$> seq 0 (core_connections_per_host config_)
  ∧ (∀ c, c < core_connections_per_host config_ →
       deref s c = cc_connect cc_new).
Proof.
  destruct (spawn_connections_open (core_connections_per_host config_)
              Pool_members eq_refl) as (E1&E2&E3&E4&E5&E6&E7).
  cbv zeta in *. cbn in E1, E3, E4, E5, E7.
  split_and!; try done.
  intros c Hc. unfold deref, Pool_new. rewrite E7 by lia. done.
Qed.

(** X2: on an open pool whose ready list is empty, [borrow_connection]
    returns no connection and starts [core_connections_per_host] further
    connects, however many sockets are already connecting. *)
Theorem borrow_connection_populates s :
  is_closing_ s = false →
  connections_ s = [] →
  let s' := (borrow_connection config_ s).2 in
  (borrow_connection config_ s).1 = Done None
  ∧ connections_pending_ s' =
      connections_pending_ s
      ++ seq (next_object s) (core_connections_per_host config_)
  ∧ connections_ s' = []
  ∧ since s s' =
      EvConnectionConnect <$> seq (next_object s) (core_connections_per_host config_).
Proof.
  intros Hc He. unfold borrow_connection. rewrite Hc, He. cbn [list_empty fst snd].
  destruct (spawn_connections_open (core_connections_per_host config_) s Hc)
    as (E1&E2&E3&E4&E5&E6&E7).
  cbv zeta in *. split_and!; try done.
  - by rewrite E4.
  - by apply since_app.
Qed.

(** X3: [maybe_spawn_connection] starts one connect exactly when the pool is
    open, fewer than [max_simultaneous_creation] sockets are connecting and
    ready plus connecting connections are fewer than
    [max_connections_per_host]; in every other case it leaves the whole state
    as it was. *)
Theorem maybe_spawn_connection_grows_iff s :
  let s' := maybe_spawn_connection config_ s in
  if negb (is_closing_ s)
     && (length (connections_pending_ s) <? max_simultaneous_creation config_)
     && (length (connections_ s) + length (connections_pending_ s)
         <? max_connections_per_host config_)
  then connections_pending_ s' = connections_pending_ s ++ [next_object s]
       ∧ connections_ s' = connections_ s
       ∧ since s s' = [EvConnectionConnect (next_object s)]
  else s' = s.
Proof.
  cbv zeta. unfold maybe_spawn_connection.
  destruct (Nat.leb_spec (max_simultaneous_creation config_)
              (length (connections_pending_ s))) as [H1|H1].
  { apply Nat.ltb_ge in H1. rewrite H1. by rewrite andb_false_r. }
  apply Nat.ltb_lt in H1. rewrite H1, andb_true_r.
  destruct (Nat.leb_spec (max_connections_per_host config_)
              (length (connections_ s) + length (connections_pending_ s)))
    as [H2|H2].
  { apply Nat.ltb_ge in H2. rewrite H2. by rewrite andb_false_r. }
  apply Nat.ltb_lt in H2. rewrite H2, andb_true_r.
  destruct (is_closing_ s) eqn:Hc; cbn [negb].
  - unfold spawn_connection. by rewrite Hc.
  - destruct (spawn_connection_open s Hc) as (F1&F2&F3&F4&_).
    cbv zeta in *. split_and!; try done. by apply since_app.
Qed.
End population.

Section selection.
Context `{!Protocol} {C : Type} `{!ClientConnection C}.
Variable config_ : Config.
Implicit Types (s : State C) (c : ConnPtr) (r : ReqPtr).

(** X4: a connection that [find_least_busy] returns is an element of the
    ready list that is ready and has a free stream; no element of the list
    has more free streams, and every element before it in the list has
    strictly fewer, so that among equally free connections the first of the
    list is chosen. *)
Theorem find_least_busy_first_of_ties s m :
  find_least_busy s = Done (Some m) →
  ∃ i, connections_ s !! i = Some m
       ∧ is_ready (deref s m) = true
       ∧ available_streams (deref s m) ≠ 0
       ∧ (∀ c, c ∈ connections_ s →
            available_streams (deref s c) ≤ available_streams (deref s m))
       ∧ (∀ j c, j < i → connections_ s !! j = Some c →
            available_streams (deref s c) < available_streams (deref s m)).
Proof.
  intros Hf.
  destruct (decide (connections_ s = [])) as [He|Hne].
  { unfold find_least_busy in Hf. by rewrite He in Hf. }
  destruct (max_element_spec (λ c, available_streams (deref s c))
              (connections_ s) Hne) as (m' & Hm & Hmax & Hfirst).
  unfold find_least_busy in Hf.
  change (max_element (least_busy_comp s) (connections_ s))
    with (max_element (by_key (λ c, available_streams (deref s c)))
            (connections_ s)) in Hf.
  rewrite Hm in Hf.
  destruct (is_ready (deref s m')) eqn:Hr; [|done].
  destruct (Nat.eqb_spec (available_streams (deref s m')) 0) as [|Hs]; [done|].
  cbn in Hf. injection Hf as <-.
  eexists. split_and!; [exact Hm|done|done|exact Hmax|exact Hfirst].
Qed.

(** X5: a connection that [borrow_connection] hands out belongs to the ready
    list of an open pool, is ready and has a free stream when it is handed
    out, and no connection of the ready list has more free streams. *)
Theorem borrow_connection_returns_ready s c :
  (borrow_connection config_ s).1 = Done (Some c) →
  let s' := (borrow_connection config_ s).2 in
  is_closing_ s = false
  ∧ c ∈ connections_ s
  ∧ connections_ s' = connections_ s
  ∧ is_ready (deref s' c) = true
  ∧ available_streams (deref s' c) ≠ 0
  ∧ (∀ c', c' ∈ connections_ s →
       available_streams (deref s' c') ≤ available_streams (deref s' c)).
Proof.
  unfold borrow_connection. destruct (is_closing_ s) eqn:Hc; [done|].
  destruct (list_empty (connections_ s)) eqn:He; [done|]. cbn [fst snd].
  destruct (maybe_spawn_connection_spec config_ s) as (E1&_). cbv zeta in E1.
  intros Hf.
  destruct (find_least_busy_nonempty (maybe_spawn_connection config_ s))
    as (m & Hm & Hmax & Hf').
  { rewrite E1. by destruct (connections_ s). }
  rewrite Hf' in Hf.
  destruct (is_ready (deref (maybe_spawn_connection config_ s) m)) eqn:Hr;
    [|done].
  destruct (Nat.eqb_spec
              (available_streams (deref (maybe_spawn_connection config_ s) m)) 0)
    as [|Hs]; [done|].
  cbn in Hf. injection Hf as <-. rewrite E1 in Hm, Hmax.
  split_and!; try done. by eapply list_elem_of_lookup_2.
Qed.
End selection.

Section completions.
Context `{!Protocol} {C : Type} `{!ClientConnection C}.
Variable config_ : Config.
Implicit Types (s : State C) (c : ConnPtr) (r : ReqPtr).

Lemma list_remove_not_elem_of x l : x ∉ list_remove x l.
Proof. unfold list_remove. by intros [? _]%list_elem_of_filter. Qed.

Lemma list_remove_id x l : x ∉ l → list_remove x l = l.
Proof.
  unfold list_remove. induction l as [|y l IH]; [done|].
  intros [Hne Hl]%not_elem_of_cons. rewrite filter_cons.
  destruct (decide (y ≠ x)) as [_|Hn]; [by rewrite IH|].
  exfalso. apply Hn. congruence.
Qed.

Lemma list_remove_app x l k :
  list_remove x (l ++ k) = list_remove x l ++ list_remove x k.
Proof. apply filter_app. Qed.

(** X6: when a socket finishes connecting ready on an open pool that has
    requests waiting, the owner is told of the connect, the connection moves
    from the connecting list to the end of the ready list, and the oldest
    waiting request leaves the queue, has its timer stopped and is dispatched
    on that connection. *)
Theorem connect_completion_dispatches_head c r rest s :
  is_closing_ s = false →
  is_ready (deref s c) = true →
  pending_request_queue_ s = r :: rest →
  let s' := on_connection_connect c s in
  connections_ s' = connections_ s ++ [c]
  ∧ connections_pending_ s' = list_remove c (connections_pending_ s)
  ∧ pending_request_queue_ s' = rest
  ∧ timer s' !! r = None
  ∧ since s s' = EvConnectCallback :: dispatch_calls c r s.
Proof.
  intros Hc Hr Hq. unfold on_connection_connect. cbv zeta.
  set (s1 := set_connections_pending _ _).
  assert (is_closing_ s1 = false) as -> by done.
  assert (deref s1 c = deref s c) as -> by done. rewrite Hr.
  set (s2 := set_connections _ s1).
  assert (Hq2 : pending_request_queue_ s2 = r :: rest) by done.
  destruct (execute_pending_request_head c r rest s2 Hq2) as (E1&E2&E3&E4&E5&_).
  cbv zeta in *. split_and!; try done.
  - rewrite E2. apply lookup_delete_eq.
  - apply since_app. rewrite E3. cbn. by rewrite <- app_assoc.
Qed.

(** X7: a socket that finishes connecting while the pool is closing is told to
    close at once; it never enters the ready list and no waiting request is
    dispatched on it. *)
Theorem connect_completion_while_closing c s :
  is_closing_ s = true →
  let s' := on_connection_connect c s in
  connections_ s' = connections_ s
  ∧ connections_pending_ s' = list_remove c (connections_pending_ s)
  ∧ pending_request_queue_ s' = pending_request_queue_ s
  ∧ timer s' = timer s
  ∧ since s s' = [EvConnectCallback; EvConnectionClose c].
Proof.
  intros Hc. unfold on_connection_connect. cbv zeta.
  set (s1 := set_connections_pending _ _).
  assert (is_closing_ s1 = true) as -> by done.
  split_and!; try done. apply since_app. cbn. by rewrite <- app_assoc.
Qed.

(** X8: a socket that reports the end of its connect sequence without being
    ready, on an open pool, is dropped from the connecting list and from the
    pool altogether: the owner is still told of a connect, but the
    connection is neither admitted nor closed and nothing is dispatched. *)
Theorem connect_completion_not_ready c s :
  is_closing_ s = false →
  is_ready (deref s c) = false →
  let s' := on_connection_connect c s in
  connections_ s' = connections_ s
  ∧ connections_pending_ s' = list_remove c (connections_pending_ s)
  ∧ (c ∉ connections_pending_ s')
  ∧ pending_request_queue_ s' = pending_request_queue_ s
  ∧ objects s' = objects s
  ∧ since s s' = [EvConnectCallback].
Proof.
  intros Hc Hr. unfold on_connection_connect. cbv zeta.
  set (s1 := set_connections_pending _ _).
  assert (is_closing_ s1 = false) as -> by done.
  assert (deref s1 c = deref s c) as -> by done. rewrite Hr.
  split_and!; try done.
  - apply list_remove_not_elem_of.
  - by apply since_app.
Qed.

(** X9: the close completion of a connection that is not defunct, on an open
    pool, only takes the connection out of the ready list: the pool stays
    open, no replacement is started and no call leaves the pool. *)
Theorem healthy_close_completion_only_removes c s :
  is_closing_ s = false →
  is_defunct (deref s c) = false →
  on_connection_close c s = set_connections (list_remove c (connections_ s)) s.
Proof.
  intros Hc Hd. unfold on_connection_close. cbv zeta.
  change (deref (set_connections _ s) c) with (deref s c). rewrite Hd.
  unfold maybe_close. cbn [is_closing_ set_connections]. by rewrite Hc.
Qed.


(** X11: when the timer of a waiting request expires, every entry of that
    request leaves the queue and the order of the others is kept; the first
    call is [retry_callback_] for that request with [RETRY_WITH_NEXT_HOST],
    the caller's handler is not entered, and the owner is notified of the
    close exactly when the pool is closing and this was the last thing it
    held. *)
Theorem on_timeout_removes_request r s :
  let s' := on_timeout r s in
  pending_request_queue_ s' = list_remove r (pending_request_queue_ s)
  ∧ (r ∉ pending_request_queue_ s')
  ∧ connections_ s' = connections_ s
  ∧ connections_pending_ s' = connections_pending_ s
  ∧ is_closing_ s' = is_closing_ s
  ∧ (∃ d, since s s' = EvRetryCallback (Some r) RETRY_WITH_NEXT_HOST :: d
          ∧ Forall (λ e, is_caller_callback e = false) d)
  ∧ close_notifications (since s s') =
      (if is_closing_ s && drained s' then 1 else 0).
Proof.
  destruct (on_timeout_spec r s) as (E1&E2&E3&E4). cbv zeta in *.
  rewrite E1, E2, E3, E4.
  assert (Hdr : drained (on_timeout r s)
                = list_empty (connections_ s)
                  && list_empty (connections_pending_ s)
                  && list_empty (list_remove r (pending_request_queue_ s)))
    by (unfold drained; by rewrite E1, E2, E3).
  rewrite Hdr. clear E1 E2 E3 E4 Hdr.
  unfold on_timeout. cbv zeta.
  set (s1 := emit _ _).
  destruct (maybe_close_spec s1) as (_&_&_&_&d&Hd&Hq&_). cbv zeta in Hd.
  assert (Htr : trace (maybe_close s1)
                = trace s ++ EvRetryCallback (Some r) RETRY_WITH_NEXT_HOST
                    :: d ++ (if is_closing_ s1 && drained s1
                             then [EvCloseCallback] else [])).
  { rewrite Hd. cbn. by rewrite <- app_assoc. }
  rewrite (since_app _ _ _ Htr).
  split_and!; try done.
  - apply list_remove_not_elem_of.
  - eexists. split; [done|]. apply Forall_app. split.
    + eapply Forall_impl; [exact Hq|]. by intros e [? _].
    + case_match; repeat constructor.
  - change (EvRetryCallback (Some r) RETRY_WITH_NEXT_HOST :: ?l)
      with ([EvRetryCallback (Some r) RETRY_WITH_NEXT_HOST] ++ l).
    rewrite !close_notifications_app, (quiet_no_notification d Hq).
    change (is_closing_ s1) with (is_closing_ s).
    change (drained s1)
      with (list_empty (connections_ s) && list_empty (connections_pending_ s)
            && list_empty (list_remove r (pending_request_queue_ s))).
    match goal with
    | |- context [if ?b then [EvCloseCallback] else []] => by destruct b
    end.
Qed.

(** X12: a request that is admitted to the queue and then times out leaves
    the queue and both connection lists exactly as they were before it was
    admitted, provided it was not waiting already. *)
Theorem wait_then_timeout_restores_queue r s :
  (wait_for_connection config_ r s).1 = true →
  r ∉ pending_request_queue_ s →
  let s' := on_timeout r (wait_for_connection config_ r s).2 in
  pending_request_queue_ s' = pending_request_queue_ s
  ∧ connections_ s' = connections_ s
  ∧ connections_pending_ s' = connections_pending_ s
  ∧ is_closing_ s' = false.
Proof.
  intros Hadm Hnew.
  destruct (on_timeout_spec r (wait_for_connection config_ r s).2)
    as (E1&E2&E3&E4).
  cbv zeta in *. rewrite E1, E2, E3, E4. clear E1 E2 E3 E4.
  revert Hadm. unfold wait_for_connection.
  destruct (is_closing_ s) eqn:Hc; cbn [orb]; [done|].
  case_match; [done|]. intros _. cbn [snd].
  split_and!; try done.
  change (pending_request_queue_ (set_pending_request_queue ?l _)) with l.
  change (pending_request_queue_ (set_timer _ (emit _ s)))
    with (pending_request_queue_ s).
  rewrite list_remove_app, (list_remove_id r _ Hnew).
  unfold list_remove. rewrite filter_cons.
  destruct (decide (r ≠ r)); [done|]. by rewrite app_nil_r.
Qed.
End completions.

Section dispatching.
Context `{!Protocol} {C : Type} `{!ClientConnection C}.
Variable config_ : Config.
Implicit Types (s : State C) (c : ConnPtr) (r : ReqPtr) (h : PoolHandler).

Lemma dispatched_dispatch_calls c r s : dispatched (dispatch_calls c r s) = [r].
Proof. unfold dispatched, dispatch_calls. by repeat case_match. Qed.

Lemma drain_queue c : ∀ q s,
  pending_request_queue_ s = q →
  let s' := Nat.iter (length q) (execute_pending_request c) s in
  pending_request_queue_ s' = []
  ∧ ∃ d, trace s' = trace s ++ d ∧ dispatched d = q.
Proof.
  induction q as [|r rest IH]; intros s Hq.
  - cbn. split; [done|]. exists []. by rewrite app_nil_r.
  - cbn [length]. rewrite Nat.iter_succ_r.
    destruct (execute_pending_request_head c r rest s Hq) as (E1&_&E3&_).
    cbv zeta in *.
    destruct (IH (execute_pending_request c s) E1) as (F1&d&Hd&Hdis).
    cbv zeta in *. split; [done|].
    exists (dispatch_calls c r s ++ d). split.
    + by rewrite Hd, E3, <- app_assoc.
    + unfold dispatched in *. rewrite omap_app.
      fold (dispatched (dispatch_calls c r s)).
      by rewrite dispatched_dispatch_calls, Hdis.
Qed.

(** X13: the queue is first in, first out.  Calling
    [execute_pending_request] once for every waiting request empties the
    queue and dispatches the requests in exactly the order in which they
    stand in the queue, which is the order of their admission. *)
Theorem queue_dispatched_in_order c s :
  let s' :=
    Nat.iter (length (pending_request_queue_ s)) (execute_pending_request c) s in
  pending_request_queue_ s' = []
  ∧ dispatched (since s s') = pending_request_queue_ s.
Proof.
  destruct (drain_queue c (pending_request_queue_ s) s eq_refl)
    as (E&d&Hd&Hdis).
  cbv zeta in *. split; [done|]. by rewrite (since_app _ _ _ Hd).
Qed.

(** X14: every response other than an unprepared error is delivered to the
    caller's [on_set], once and before anything else, and the [PoolHandler]
    keeps the request handler.  When the opcode is neither the result nor the
    error opcode the connection is marked defunct right after the caller has
    been given the response. *)
Theorem on_set_forwards_response c r response s :
  opcode response = CQL_OPCODE_RESULT
  ∨ opcode response ≠ CQL_OPCODE_ERROR
  ∨ error_code response ≠ CQL_ERROR_UNPREPARED →
  let h := {| connection_ := c; request_handler_ := Some r |} in
  ∃ s' d,
    PoolHandler_on_set h response s = Done (h, s')
    ∧ since s s' =
        EvHandlerOnSet r response
        :: (if decide (opcode response = CQL_OPCODE_RESULT
                       ∨ opcode response = CQL_OPCODE_ERROR)
            then [] else [EvConnectionDefunct c])
        ++ d
    ∧ Forall quiet d.
Proof.
  intros Hresp h.
  unfold PoolHandler_on_set, PoolHandler_on_error_response,
    through_request_handler.
  destruct (decide (opcode response = CQL_OPCODE_RESULT)) as [Hres|Hres].
  - cbn.
    destruct (finish_request_quiet h (emit (EvHandlerOnSet r response) s))
      as (d&Hd&Hq).
    eexists _, d. split; [reflexivity|]. split; [|done].
    apply since_app. rewrite Hd. cbn. rewrite <- app_assoc.
    destruct (decide _) as [_|Hn]; [done|]. exfalso. apply Hn. by left.
  - destruct (decide (opcode response = CQL_OPCODE_ERROR)) as [Herr|Herr].
    + destruct (decide (error_code response = CQL_ERROR_UNPREPARED)) as [Hun|Hun].
      { exfalso. destruct Hresp as [?|[?|?]]; done. }
      cbn.
      destruct (finish_request_quiet h (emit (EvHandlerOnSet r response) s))
        as (d&Hd&Hq).
      eexists _, d. split; [reflexivity|]. split; [|done].
      apply since_app. rewrite Hd. cbn. rewrite <- app_assoc.
      destruct (decide _) as [_|Hn]; [done|]. exfalso. apply Hn. by right.
    + cbn.
      destruct (finish_request_quiet h
                  (Connection_defunct c (emit (EvHandlerOnSet r response) s)))
        as (d&Hd&Hq).
      eexists _, d. split; [reflexivity|]. split; [|done].
      apply since_app. rewrite Hd. cbn. rewrite <- !app_assoc.
      destruct (decide _) as [[?|?]|_]; done.
Qed.

(** X15: when a dispatched request times out, the caller's [on_timeout] is
    entered first; then, if the connection is still ready, the oldest waiting
    request leaves the queue and is dispatched on that connection, and if the
    connection is not ready the queue is left alone. *)
Theorem PoolHandler_on_timeout_reuses_connection c r0 s :
  let h := {| connection_ := c; request_handler_ := Some r0 |} in
  ∃ s',
    PoolHandler_on_timeout h s = Done (h, s')
    ∧ pending_request_queue_ s' =
        (if is_ready (deref s c) then tail (pending_request_queue_ s)
         else pending_request_queue_ s)
    ∧ since s s' =
        EvHandlerOnTimeout r0
        :: (if is_ready (deref s c) then
              match pending_request_queue_ s with
              | r :: _ => dispatch_calls c r s
              | [] => []
              end
            else []).
Proof.
  cbv zeta. unfold PoolHandler_on_timeout, through_request_handler. cbn.
  eexists. split; [reflexivity|].
  unfold PoolHandler_finish_request. cbn [connection_].
  set (s1 := emit (EvHandlerOnTimeout r0) s).
  change (deref s1 c) with (deref s c).
  destruct (is_ready (deref s c)); [|split; [done|by apply since_app]].
  destruct (pending_request_queue_ s) as [|r rest] eqn:Hq.
  - rewrite execute_pending_request_empty by done.
    split; [done|by apply since_app].
  - assert (Hq1 : pending_request_queue_ s1 = r :: rest) by done.
    destruct (execute_pending_request_head c r rest s1 Hq1) as (E1&_&E3&_).
    cbv zeta in *. split; [done|].
    apply since_app. rewrite E3. cbn. by rewrite <- app_assoc.
Qed.

(** X16: once the pool is closing, no operation of the event loop lets it
    grow or reopen: the pool stays closing, and the ready list, the
    connecting list and the request queue never become longer. *)
Theorem closing_pool_never_grows (op : Op C) s s' :
  is_closing_ s = true →
  apply_op config_ op s = Done s' →
  is_closing_ s' = true
  ∧ length (connections_ s') ≤ length (connections_ s)
  ∧ length (connections_pending_ s') ≤ length (connections_pending_ s)
  ∧ length (pending_request_queue_ s') ≤ length (pending_request_queue_ s).
Proof.
  intros Hc Hop. destruct op; cbn in Hop.
  - unfold borrow_connection in Hop. rewrite Hc in Hop. cbn in Hop.
    by injection Hop as <-.
  - injection Hop as <-.
    destruct (Connection_execute_pool c (new_PoolHandler c r) s)
      as (E1&E2&E3&E4&_).
    unfold execute. cbv zeta in *. by rewrite E1, E2, E3, E4.
  - injection Hop as <-. unfold wait_for_connection. by rewrite Hc.
  - injection Hop as <-. destruct (close_spec s) as (E1&E2&E3&E4&_).
    cbv zeta in *. by rewrite E1, E2, E3, E4.
  - injection Hop as <-. unfold on_connection_connect. cbv zeta.
    set (s1 := set_connections_pending _ _).
    assert (is_closing_ s1 = true) as -> by done. cbn.
    split_and!; try done. apply length_filter.
  - injection Hop as <-.
    destruct (on_connection_close_spec c s) as (E1&E2&E3&E4&_).
    cbv zeta in *. rewrite E1, E2, E3, E4, Hc.
    split_and!; try done. apply length_filter.
  - injection Hop as <-. destruct (on_timeout_spec r s) as (E1&E2&E3&E4).
    cbv zeta in *. rewrite E1, E2, E3, E4.
    split_and!; try done. apply length_filter.
  - destruct (PoolHandler_on_set h response s) as [[h' s1]|] eqn:E; [|done].
    injection Hop as <-. apply PoolHandler_on_set_pool in E as (E1&E2&E3&E4).
    by rewrite E1, E2, E3.
  - destruct (PoolHandler_on_error h code message s) as [[h' s1]|] eqn:E;
      [|done].
    injection Hop as <-. apply PoolHandler_on_error_pool in E as (E1&E2&E3&E4).
    by rewrite E1, E2, E3.
  - destruct (PoolHandler_on_timeout h s) as [[h' s1]|] eqn:E; [|done].
    injection Hop as <-. apply PoolHandler_on_timeout_pool in E as (E1&E2&E3&E4).
    by rewrite E1, E2, E3.
  - by injection Hop as <-.
Qed.
End dispatching.

Section timers.
Context `{!Protocol} {C : Type} `{!ClientConnection C}.
Variable config_ : Config.
Implicit Types (s : State C) (c : ConnPtr) (r : ReqPtr) (h : PoolHandler).

Lemma keeps_waiting_refl s : keeps_waiting s s.
Proof. done. Qed.

Lemma keeps_waiting_trans s1 s2 s3 :
  keeps_waiting s1 s2 → keeps_waiting s2 s3 → keeps_waiting s1 s3.
Proof. intros [E1 E2] [F1 F2]. split; congruence. Qed.

Lemma keeps_waiting_foldl (f : State C → ConnPtr → State C) l :
  (∀ s c, keeps_waiting s (f s c)) → ∀ s, keeps_waiting s (foldl f s l).
Proof.
  intros Hf. induction l as [|c l IH]; intros s; [done|]. cbn.
  eapply keeps_waiting_trans; [apply Hf|apply IH].
Qed.

Lemma maybe_close_keeps_waiting s : keeps_waiting s (maybe_close s).
Proof.
  unfold maybe_close. destruct (is_closing_ s); [|done].
  eapply keeps_waiting_trans.
  - apply (keeps_waiting_foldl
             (λ s c, if is_closing (deref s c) then s else Connection_close c s)).
    intros s0 c. by case_match.
  - by case_match.
Qed.

Lemma close_keeps_waiting s : keeps_waiting s (close s).
Proof.
  unfold close. cbv zeta.
  eapply keeps_waiting_trans; [|apply maybe_close_keeps_waiting].
  eapply (keeps_waiting_trans _ (set_is_closing true s)); [done|].
  by apply (keeps_waiting_foldl (λ s c, Connection_close c s)).
Qed.

Lemma spawn_connections_keep_waiting n s :
  keeps_waiting s (Nat.iter n spawn_connection s).
Proof.
  induction n as [|n IH]; [done|].
  change (Nat.iter (S n) spawn_connection s)
    with (spawn_connection (Nat.iter n spawn_connection s)).
  eapply keeps_waiting_trans; [exact IH|].
  unfold spawn_connection. by case_match.
Qed.

Lemma borrow_connection_keeps_waiting s :
  keeps_waiting s (borrow_connection config_ s).2.
Proof.
  unfold borrow_connection. destruct (is_closing_ s); [done|].
  destruct (list_empty (connections_ s)); cbn [snd].
  - apply spawn_connections_keep_waiting.
  - unfold maybe_spawn_connection, spawn_connection. by repeat case_match.
Qed.

Lemma Connection_execute_keeps_waiting c cb s :
  keeps_waiting s (Connection_execute c cb s).2.
Proof. by destruct (Connection_execute_pool c cb s) as (_&_&?&_&?). Qed.

(** Dispatching the head of the queue keeps the timers of the requests that
    go on waiting. *)
Lemma execute_pending_request_timers c s :
  timers_armed config_ s → timers_armed config_ (execute_pending_request c s).
Proof.
  intros [Hnd Ht]. destruct (pending_request_queue_ s) as [|r rest] eqn:Hq.
  - rewrite execute_pending_request_empty by done. split; by rewrite ?Hq.
  - destruct (execute_pending_request_head c r rest s Hq) as (E1&E2&_).
    cbv zeta in *. apply NoDup_cons in Hnd as [Hr Hnd].
    split; rewrite E1; [done|]. intros r' Hr'. rewrite E2.
    rewrite lookup_delete_ne by (intros ->; done).
    apply Ht. by right.
Qed.

Lemma keeps_waiting_timers s s' :
  keeps_waiting s s' → timers_armed config_ s → timers_armed config_ s'.
Proof. intros [E1 E2] [Hnd Ht]. split; by rewrite E1, ?E2. Qed.

Lemma finish_request_timers h s :
  timers_armed config_ s → timers_armed config_ (PoolHandler_finish_request h s).
Proof.
  unfold PoolHandler_finish_request. case_match; [|done].
  apply execute_pending_request_timers.
Qed.

Lemma through_request_handler_keeps_waiting h call s s' :
  through_request_handler h call s = Done s' → keeps_waiting s s'.
Proof.
  unfold through_request_handler. destruct (request_handler_ h); [|done].
  by intros [= <-].
Qed.

Lemma apply_op_timers (op : Op C) s s' :
  admits_once op s = true →
  apply_op config_ op s = Done s' →
  timers_armed config_ s → timers_armed config_ s'.
Proof.
  intros Honce Hop Hs. destruct op; cbn in Hop, Honce.
  - pose proof (borrow_connection_keeps_waiting s) as Hk.
    destruct (borrow_connection config_ s) as [[o|] s1]; [|done].
    injection Hop as <-. by eapply keeps_waiting_timers.
  - injection Hop as <-.
    eapply keeps_waiting_timers; [|done]. apply Connection_execute_keeps_waiting.
  - injection Hop as <-. apply bool_decide_eq_true in Honce.
    unfold wait_for_connection. case_match; [done|]. cbn.
    destruct Hs as [Hnd Ht]. split; cbn.
    + apply NoDup_app. split_and!; [done| |apply NoDup_singleton].
      intros x Hx ->%list_elem_of_singleton. done.
    + intros r' [Hr'|Hr'%list_elem_of_singleton]%elem_of_app.
      * destruct (decide (r = r')) as [->|Hne]; [done|].
        rewrite lookup_insert_ne by done. by apply Ht.
      * subst. apply lookup_insert_eq.
  - injection Hop as <-.
    eapply keeps_waiting_timers; [|done]. apply close_keeps_waiting.
  - injection Hop as <-. unfold on_connection_connect. cbv zeta.
    set (s1 := set_connections_pending _ _).
    assert (Hs1 : timers_armed config_ s1) by done. clearbody s1.
    destruct (is_closing_ s1); [done|].
    destruct (is_ready (deref s1 c)); [|done].
    by apply execute_pending_request_timers.
  - injection Hop as <-. unfold on_connection_close. cbv zeta.
    eapply keeps_waiting_timers; [apply maybe_close_keeps_waiting|].
    by case_match.
  - injection Hop as <-. unfold on_timeout. cbv zeta.
    eapply keeps_waiting_timers; [apply maybe_close_keeps_waiting|].
    destruct Hs as [Hnd Ht]. split; cbn.
    + by apply NoDup_filter.
    + intros r' [_ Hr']%list_elem_of_filter. by apply Ht.
  - unfold PoolHandler_on_set, PoolHandler_on_error_response in Hop.
    repeat case_decide.
    + destruct (through_request_handler _ _ _) as [s1|] eqn:E; [|done].
      cbn in Hop. injection Hop as <-. apply finish_request_timers.
      eapply keeps_waiting_timers; [|done].
      by eapply through_request_handler_keeps_waiting.
    + pose proof (Connection_execute_keeps_waiting (connection_ h)
                    (new_PrepareHandler (request_handler_ h)) s) as Hk.
      destruct (Connection_execute _ _ _) as [b s1]. cbn in Hop.
      injection Hop as <-. apply finish_request_timers.
      by eapply keeps_waiting_timers.
    + destruct (through_request_handler _ _ _) as [s1|] eqn:E; [|done].
      cbn in Hop. injection Hop as <-. apply finish_request_timers.
      eapply keeps_waiting_timers; [|done].
      by eapply through_request_handler_keeps_waiting.
    + destruct (through_request_handler _ _ _) as [s1|] eqn:E; [|done].
      cbn in Hop. injection Hop as <-. apply finish_request_timers.
      eapply (keeps_waiting_timers s1); [done|].
      eapply keeps_waiting_timers; [|done].
      by eapply through_request_handler_keeps_waiting.
  - unfold PoolHandler_on_error in Hop. case_decide; cbn in Hop.
    + injection Hop as <-. by apply finish_request_timers.
    + destruct (through_request_handler _ _ _) as [s1|] eqn:E; [|done].
      cbn in Hop. injection Hop as <-. apply finish_request_timers.
      eapply keeps_waiting_timers; [|done].
      by eapply through_request_handler_keeps_waiting.
  - unfold PoolHandler_on_timeout in Hop.
    destruct (through_request_handler _ _ _) as [s1|] eqn:E; [|done].
    cbn in Hop. injection Hop as <-. apply finish_request_timers.
    eapply keeps_waiting_timers; [|done].
    by eapply through_request_handler_keeps_waiting.
  - by injection Hop as <-.
Qed.

(** X17: as long as the owner never queues a request handler that is waiting
    already, no request waits twice and every waiting request holds the timer
    of [connect_timeout] that [wait_for_connection] started for it, in every
    state the event loop reaches; the timer is therefore armed, and stopped,
    whenever a waiting request is dispatched. *)
Theorem run_timers_armed ops s :
  run config_ admits_once ops (Pool_new config_) = Some s →
  NoDup (pending_request_queue_ s)
  ∧ ∀ r, r ∈ pending_request_queue_ s →
         timer s !! r = Some (connect_timeout config_).
Proof.
  intros Hrun.
  eapply (run_invariant config_ admits_once (timers_armed config_));
    [|exact Hrun|].
  - intros op s1 s2 _ Honce Hop. by apply (apply_op_timers op s1 s2).
  - destruct (Pool_new_spec (C := C) config_) as (_&Hq&_).
    split; rewrite Hq; [apply NoDup_nil_2|by intros ? ?%elem_of_nil].
Qed.
End timers.

(** ** Concrete runs for the further properties *)

(** A second [borrow_connection] on a pool whose two core sockets are still
    connecting starts two more. *)
Lemma borrow_connection_populates_witness :
  connections_pending_
    (borrow_connection config_2_2_1 (Pool_new (C := Connection) config_2_2_1)).2
  = [0; 1; 2; 3].
Proof.
  destruct (borrow_connection_populates config_2_2_1
              (Pool_new (C := Connection) config_2_2_1))
    as (_ & E & _); [reflexivity|reflexivity|].
  exact E.
Defined.

(** The first of the two freest connections is selected. *)
Lemma find_least_busy_first_of_ties_witness :
  ∃ s : State Connection,
    run config_3_3_1 any_op three_ready (Pool_new config_3_3_1) = Some s
    ∧ connections_ s = [0; 1; 2]
    ∧ available_streams (deref s 1) = 7
    ∧ find_least_busy s = Done (Some 0)
    ∧ ∃ i, connections_ s !! i = Some 0
           ∧ ∀ j c, j < i → connections_ s !! j = Some c →
                    available_streams (deref s c) < available_streams (deref s 0).
Proof.
  eexists. split; [vm_compute; reflexivity|].
  split; [reflexivity|]. split; [reflexivity|]. split; [reflexivity|].
  match goal with |- ∃ i, connections_ ?s !! i = _ ∧ _ =>
    destruct (find_least_busy_first_of_ties s 0) as (i & Hi & _ & _ & _ & Hfirst);
      [reflexivity|]
  end.
  exists i. split; [exact Hi|exact Hfirst].
Defined.

Lemma borrow_connection_returns_ready_witness :
  ∃ s : State Connection,
    run config_3_3_1 any_op three_ready (Pool_new config_3_3_1) = Some s
    ∧ (borrow_connection config_3_3_1 s).1 = Done (Some 0)
    ∧ 0 ∈ connections_ s
    ∧ is_ready (deref (borrow_connection config_3_3_1 s).2 0) = true.
Proof.
  eexists. split; [vm_compute; reflexivity|]. split; [reflexivity|].
  match goal with |- 0 ∈ connections_ ?s ∧ _ =>
    destruct (borrow_connection_returns_ready config_3_3_1 s 0)
      as (_ & Hin & _ & Hr & _); [reflexivity|]
  end.
  split; [exact Hin|exact Hr].
Defined.

(** Request 7 waits on a pool whose only socket then connects ready. *)
Lemma connect_completion_dispatches_head_witness :
  ∃ s : State Connection,
    run config_1_1_1 any_op
      [op_wait_for_connection 7; op_connection_moves 0 (ready_with 128)]
      (Pool_new config_1_1_1) = Some s
    ∧ connections_ (on_connection_connect 0 s) = [0]
    ∧ pending_request_queue_ (on_connection_connect 0 s) = []
    ∧ since s (on_connection_connect 0 s) =
        [EvConnectCallback; EvTimerStop 7;
         EvConnectionExecute 0 (new_PoolHandler 0 7)].
Proof.
  eexists. split; [vm_compute; reflexivity|].
  match goal with |- connections_ (on_connection_connect 0 ?s) = _ ∧ _ =>
    destruct (connect_completion_dispatches_head 0 7 [] s)
      as (E1 & _ & E3 & _ & E5); [reflexivity|reflexivity|reflexivity|]
  end.
  split; [exact E1|]. split; [exact E3|exact E5].
Defined.

(** The pool is closed while its only socket is still connecting. *)
Lemma connect_completion_while_closing_witness :
  ∃ s : State Connection,
    run config_1_1_1 any_op [op_close] (Pool_new config_1_1_1) = Some s
    ∧ connections_ (on_connection_connect 0 s) = []
    ∧ connections_pending_ (on_connection_connect 0 s) = []
    ∧ since s (on_connection_connect 0 s)
      = [EvConnectCallback; EvConnectionClose 0].
Proof.
  eexists. split; [vm_compute; reflexivity|].
  match goal with |- connections_ (on_connection_connect 0 ?s) = _ ∧ _ =>
    destruct (connect_completion_while_closing 0 s)
      as (E1 & E2 & _ & _ & E5); [reflexivity|]
  end.
  split; [exact E1|]. split; [exact E2|exact E5].
Defined.

(** The only socket of the pool reports its connect without being ready. *)
Lemma connect_completion_not_ready_witness :
  connections_ (on_connection_connect 0 (Pool_new (C := Connection) config_1_1_1)) = []
  ∧ connections_pending_
      (on_connection_connect 0 (Pool_new (C := Connection) config_1_1_1)) = []
  ∧ since (Pool_new (C := Connection) config_1_1_1)
      (on_connection_connect 0 (Pool_new config_1_1_1)) = [EvConnectCallback].
Proof.
  destruct (connect_completion_not_ready 0 (Pool_new (C := Connection) config_1_1_1))
    as (E1 & E2 & _ & _ & _ & E6); [reflexivity|reflexivity|].
  split; [exact E1|]. split; [exact E2|exact E6].
Defined.

(** The server closes the only connection of an open pool. *)
Lemma healthy_close_completion_only_removes_witness :
  ∃ s : State Connection,
    run config_1_1_1 any_op
      [op_connection_moves 0 (ready_with 128); op_on_connection_connect 0;
       op_connection_moves 0 (closing_with 128)]
      (Pool_new config_1_1_1) = Some s
    ∧ connections_ s = [0]
    ∧ on_connection_close 0 s = set_connections [] s.
Proof.
  eexists. split; [vm_compute; reflexivity|]. split; [reflexivity|].
  match goal with |- on_connection_close 0 ?s = _ =>
    exact (healthy_close_completion_only_removes 0 s eq_refl eq_refl)
  end.
Defined.

(** Request 8 joins request 7 in the queue and then times out. *)
Lemma wait_then_timeout_restores_queue_witness :
  ∃ s : State Connection,
    run config_1_1_1 any_op [op_wait_for_connection 7]
      (Pool_new config_1_1_1) = Some s
    ∧ pending_request_queue_ (wait_for_connection config_1_1_1 8 s).2 = [7; 8]
    ∧ pending_request_queue_
        (on_timeout 8 (wait_for_connection config_1_1_1 8 s).2) = [7].
Proof.
  eexists. split; [vm_compute; reflexivity|]. split; [reflexivity|].
  match goal with |- pending_request_queue_ (on_timeout 8 (_ ?s).2) = _ =>
    destruct (wait_then_timeout_restores_queue config_1_1_1 8 s) as (E & _);
      [reflexivity
      |change (8 ∉ [7]); intros Hin%list_elem_of_singleton; discriminate|]
  end.
  exact E.
Defined.

(** A response with an opcode that is neither result nor error, while
    request 8 waits: the caller gets the response and the connection is
    marked defunct. *)
Lemma on_set_forwards_response_witness :
  ∃ s' d,
    PoolHandler_on_set (C := Connection)
      {| connection_ := 3; request_handler_ := Some 7 |}
      {| opcode := 0x03; error_code := 0 |}
      (set_pending_request_queue [8] Pool_members)
      = Done ({| connection_ := 3; request_handler_ := Some 7 |}, s')
    ∧ since (set_pending_request_queue [8] Pool_members) s' =
        EvHandlerOnSet 7 {| opcode := 0x03; error_code := 0 |}
        :: [EvConnectionDefunct 3] ++ d
    ∧ Forall quiet d.
Proof.
  destruct (on_set_forwards_response (C := Connection) 3 7
              {| opcode := 0x03; error_code := 0 |}
              (set_pending_request_queue [8] Pool_members))
    as (s' & d & E1 & E2 & Hq).
  { right. left. vm_compute. discriminate. }
  exists s', d. split; [exact E1|]. split; [|exact Hq].
  rewrite E2. destruct (decide _) as [[Hop|Hop]|_]; [..|reflexivity];
    vm_compute in Hop; discriminate.
Defined.

(** A socket that connects after [close()] does not make the pool grow. *)
Lemma closing_pool_never_grows_witness :
  ∃ s : State Connection,
    run config_1_1_1 any_op [op_close] (Pool_new config_1_1_1) = Some s
    ∧ is_closing_ (on_connection_connect 0 s) = true
    ∧ length (connections_ (on_connection_connect 0 s)) ≤ length (connections_ s).
Proof.
  eexists. split; [vm_compute; reflexivity|].
  match goal with |- is_closing_ (on_connection_connect 0 ?s) = _ ∧ _ =>
    destruct (closing_pool_never_grows config_1_1_1
                (op_on_connection_connect 0) s (on_connection_connect 0 s))
      as (E1 & E2 & _); [reflexivity|reflexivity|]
  end.
  split; [exact E1|exact E2].
Defined.

(** Two different requests wait, each with its timer of 5000. *)
Lemma run_timers_armed_witness :
  ∃ s : State Connection,
    run config_1_1_1 admits_once
      [op_wait_for_connection 7; op_wait_for_connection 8]
      (Pool_new config_1_1_1) = Some s
    ∧ pending_request_queue_ s = [7; 8]
    ∧ timer s !! 8 = Some 5000.
Proof.
  eexists. split; [vm_compute; reflexivity|]. split; [reflexivity|].
  match goal with |- timer ?s !! 8 = _ =>
    destruct (run_timers_armed config_1_1_1
                [op_wait_for_connection 7; op_wait_for_connection 8] s)
      as (_ & Ht); [vm_compute; reflexivity|]
  end.
  apply Ht. vm_compute. apply list_elem_of_further, list_elem_of_here.
Defined.

(** A third request is refused by a queue of at most two. *)
Lemma run_queue_bounded_witness :
  ∃ s : State Connection,
    run config_1_1_1 any_op
      [op_wait_for_connection 7; op_wait_for_connection 8;
       op_wait_for_connection 9]
      (Pool_new config_1_1_1) = Some s
    ∧ pending_request_queue_ s = [7; 8]
    ∧ length (pending_request_queue_ s) ≤ 2.
Proof.
  eexists. split; [vm_compute; reflexivity|]. split; [reflexivity|].
  apply (run_queue_bounded config_1_1_1
           [op_wait_for_connection 7; op_wait_for_connection 8;
            op_wait_for_connection 9]).
  vm_compute. reflexivity.
Defined.

(** After [close()], a connect completion, a request and a borrow leave the
    pool closing. *)
Lemma run_closing_forward_witness :
  ∃ s' : State Connection,
    run config_1_1_1 any_op
      [op_on_connection_connect 0; op_wait_for_connection 7;
       op_borrow_connection]
      (close (Pool_new config_1_1_1)) = Some s'
    ∧ is_closing_ s' = true.
Proof.
  eexists. split; [vm_compute; reflexivity|].
  match goal with |- is_closing_ ?s' = true =>
    apply (run_closing_forward config_1_1_1
             [op_on_connection_connect 0; op_wait_for_connection 7;
              op_borrow_connection]
             (close (Pool_new config_1_1_1)) s');
      [vm_compute; reflexivity|reflexivity]
  end.
Defined.

(** With one core connection of at most three, growth by
    [borrow_connection] stops at three connections. *)
Lemma run_connections_bounded_witness :
  ∃ s : State Connection,
    run config_1_3_1 no_repopulation
      [op_connection_moves 0 (ready_with 128); op_on_connection_connect 0;
       op_borrow_connection;
       op_connection_moves 1 (ready_with 128); op_on_connection_connect 1;
       op_borrow_connection;
       op_connection_moves 2 (ready_with 128); op_on_connection_connect 2;
       op_borrow_connection]
      (Pool_new config_1_3_1) = Some s
    ∧ connections_ s = [0; 1; 2] ∧ connections_pending_ s = []
    ∧ length (connections_ s) + length (connections_pending_ s) ≤ 3.
Proof.
  eexists. split; [vm_compute; reflexivity|].
  split; [reflexivity|]. split; [reflexivity|].
  apply (run_connections_bounded config_1_3_1
           [op_connection_moves 0 (ready_with 128); op_on_connection_connect 0;
            op_borrow_connection;
            op_connection_moves 1 (ready_with 128); op_on_connection_connect 1;
            op_borrow_connection;
            op_connection_moves 2 (ready_with 128); op_on_connection_connect 2;
            op_borrow_connection]).
  vm_compute. reflexivity.
Defined.
